(** * FusionAPI public headers: the inline wrapper layer

    The headers under [CPP/include] declare, for every API class, a private
    "raw interface" of virtual methods implemented by the host application
    and a set of public inline wrappers that marshal arguments and results
    across that interface.  This development embeds the wrappers of

    - [Cam/AdditiveFEA/AdditiveFEADeckBuilder.h]
    - [Original/Fusion/Configurations/ConfigurationParameterCell.h]
    - [Sim/Simulation/LoadCaseItems.h]
    - [Sim/Simulation/SimAttribute.h]
    - [Sim/Simulation/StructuralConstraint.h]
    - [Sim/Simulation/ConstraintMask.h]

    as programs over the raw interface and proves how they forward. *)

From Stdlib Require Import List String Ascii Bool NArith ZArith Lia.
From Stdlib Require Import Floats.SpecFloat.
Import ListNotations.

(** * Values that cross the binary interface *)

(** [size_t]: an unsigned 64-bit integer; [++i] wraps around. *)
Definition size_t := N.
Definition SIZE_MAX : N := (2 ^ 64 - 1)%N.
Definition size_incr (i : size_t) : size_t := ((i + 1) mod 2 ^ 64)%N.

(** [int] by value, [double] as an IEEE 754 value (zero, infinity, NaN or
    a finite number with sign, mantissa and exponent).  Neither is computed
    with in these headers; both are only handed on. *)
Definition int := Z.
Definition double := spec_float.

(** A pointer to a host object ([T*] for an API class [T]).  The wrappers
    never look inside such an object, so only the address matters; the
    null pointer is address 0. *)
Definition raw_ptr := N.
Definition nullptr : raw_ptr := 0%N.
Definition is_null (p : raw_ptr) : bool := (p =? 0)%N.

(** A pointer to characters ([char*], [const char*]).  The wrappers do read
    through these, so a non-null pointer is modelled by the bytes stored
    from its target on; [None] is the null pointer. *)
Definition char_ptr := option string.

(** A pointer to an array the wrapper has allocated with [new T[n]] and
    hands to the host: [None] is the null pointer, [Some a] the array with
    its [n] entries. *)
Definition array_ptr (T : Type) := option (list T).

(** A pointer to an array of object pointers handed back by the host
    ([T**]): [None] is null, [Some p] gives the entry [p[i]] read at each
    index. *)
Definition host_array := option (size_t -> raw_ptr).

(** Simulation constraint types ([Sim/SimTypeDefs.h]).  An unscoped C++
    enumeration is an integer with named values, and a variable of the
    enumeration type can hold integers that name no enumerator. *)
Definition ConstraintTypes := Z.
Definition UnknownConstraintType : ConstraintTypes := 0%Z.
Definition FixedConstraintType : ConstraintTypes := 1%Z.
Definition SurfaceRollerConstraintType : ConstraintTypes := 2%Z.
Definition DirectionalConstraintType : ConstraintTypes := 3%Z.
Definition PinConstraintType : ConstraintTypes := 4%Z.
Definition RemoteConstraintType : ConstraintTypes := 5%Z.

Definition is_ConstraintTypes_enumerator (v : ConstraintTypes) : bool :=
  ((0 <=? v) && (v <=? 5))%Z.

(** Modelled from the spec: the enumeration [AdditiveFEACard] is declared in
    [Cam/CamTypeDefs.h], which is not part of this source tree.  Like every
    enumeration of these headers it is an integer with named values. *)
Definition AdditiveFEACard := Z.

(** Modelled from the spec: [core::Ptr<T>] is declared in [Core/Base.h],
    which is not part of this source tree.  It is the shared smart pointer
    that manages the reference-counted lifetime of a host object: it is
    built from a raw pointer, holds that pointer, and [get] gives it back.
    A [Ptr] is null exactly when the pointer it holds is. *)
Record Ptr : Type := mkPtr { get : raw_ptr }.

Definition Ptr_is_null (p : Ptr) : bool := is_null (get p).

(** ** Strings *)

(** [std::string] is a sequence of bytes, which may contain NUL. *)
Definition NUL : ascii := Ascii.zero.

(** [s.c_str()]: a non-null pointer to the bytes of [s] followed by the
    terminating NUL. *)
Definition c_str (s : string) : char_ptr := Some (s ++ String NUL "")%string.

(** The characters of the C string stored at a pointer's target: the bytes
    up to, and without, the first NUL; this is what assigning a [char*] to
    a [std::string] copies. *)
Fixpoint c_string_chars (bytes : string) : string :=
  match bytes with
  | EmptyString => EmptyString
  | String c rest =>
      if Ascii.eqb c NUL then EmptyString else String c (c_string_chars rest)
  end.

Fixpoint has_NUL (s : string) : bool :=
  match s with
  | EmptyString => false
  | String c rest => Ascii.eqb c NUL || has_NUL rest
  end.

(** * The raw interface

    One constructor per raw method; the index is the type of what the call
    hands back.  [this] is the object the method is invoked on.  Where a
    getter and a setter share a name in C++, the one-argument overload
    carries the suffix [_set]. *)
Inductive RawCall : Type -> Type :=
(* AdditiveFEADeckBuilder *)
| AdditiveFEADeckBuilder_create_raw : RawCall raw_ptr
| AdditiveFEADeckBuilder_createSTLMap_raw (this : raw_ptr) : RawCall raw_ptr
| AdditiveFEADeckBuilder_createConvection_raw (this : raw_ptr) : RawCall raw_ptr
| AdditiveFEADeckBuilder_append_raw (this : raw_ptr) (card : raw_ptr) : RawCall unit
| AdditiveFEADeckBuilder_createGenericCard_raw
    (this : raw_ptr) (name value : char_ptr) : RawCall raw_ptr
| AdditiveFEADeckBuilder_createVoidCard_raw
    (this : raw_ptr) (card : AdditiveFEACard) : RawCall raw_ptr
| AdditiveFEADeckBuilder_createIntCard_raw
    (this : raw_ptr) (card : AdditiveFEACard) (value : int) : RawCall raw_ptr
| AdditiveFEADeckBuilder_createDoubleCard_raw
    (this : raw_ptr) (card : AdditiveFEACard) (value : double) : RawCall raw_ptr
| AdditiveFEADeckBuilder_createStringCard_raw
    (this : raw_ptr) (card : AdditiveFEACard) (value : char_ptr) : RawCall raw_ptr
| AdditiveFEADeckBuilder_createStringArrayCard_raw
    (this : raw_ptr) (card : AdditiveFEACard)
    (value : array_ptr char_ptr) (value_size : size_t) : RawCall raw_ptr
| AdditiveFEADeckBuilder_createBuildPlateZBoundsCard_raw
    (this : raw_ptr) (zTop zBottom : double) : RawCall raw_ptr
| AdditiveFEADeckBuilder_createDiskCheckCard_raw
    (this : raw_ptr) (i1 : int) (r1 : double) : RawCall raw_ptr
| AdditiveFEADeckBuilder_createSTLMapCard_raw
    (this : raw_ptr) (map : raw_ptr) : RawCall raw_ptr
| AdditiveFEADeckBuilder_createConvectionCard_raw
    (this : raw_ptr) (convection : raw_ptr) : RawCall raw_ptr
| AdditiveFEADeckBuilder_createBuildPlateXYExtensionCard_raw
    (this : raw_ptr) (left right front back : double) : RawCall raw_ptr
| AdditiveFEADeckBuilder_cards_raw
    (this : raw_ptr) : RawCall (host_array * option size_t)
(* ConfigurationParameterCell *)
| ConfigurationParameterCell_parentColumn_raw (this : raw_ptr) : RawCall raw_ptr
| ConfigurationParameterCell_expression_raw (this : raw_ptr) : RawCall char_ptr
| ConfigurationParameterCell_expression_raw_set
    (this : raw_ptr) (value : char_ptr) : RawCall bool
| ConfigurationParameterCell_value_raw (this : raw_ptr) : RawCall double
| ConfigurationParameterCell_value_raw_set
    (this : raw_ptr) (value : double) : RawCall bool
(* LoadCaseItems *)
| LoadCaseItems_item_raw (this : raw_ptr) (index : size_t) : RawCall raw_ptr
| LoadCaseItems_itemByName_raw (this : raw_ptr) (name : char_ptr) : RawCall raw_ptr
| LoadCaseItems_count_raw (this : raw_ptr) : RawCall size_t
(* SimAttribute *)
| SimAttribute_name_raw (this : raw_ptr) : RawCall char_ptr
| SimAttribute_name_raw_set (this : raw_ptr) (value : char_ptr) : RawCall bool
| SimAttribute_inputEntities_raw
    (this : raw_ptr) : RawCall (host_array * option size_t)
| SimAttribute_inputEntities_raw_set
    (this : raw_ptr) (value : array_ptr raw_ptr) (value_size : size_t) : RawCall bool
(* StructuralConstraint *)
| StructuralConstraint_type_raw (this : raw_ptr) : RawCall ConstraintTypes
| StructuralConstraint_type_raw_set
    (this : raw_ptr) (value : ConstraintTypes) : RawCall bool
| StructuralConstraint_mask_raw (this : raw_ptr) : RawCall raw_ptr
| StructuralConstraint_mask_raw_set (this : raw_ptr) (value : raw_ptr) : RawCall bool
| StructuralConstraint_displacements_raw (this : raw_ptr) : RawCall raw_ptr
| StructuralConstraint_displacements_raw_set
    (this : raw_ptr) (value : raw_ptr) : RawCall bool
| StructuralConstraint_rotations_raw (this : raw_ptr) : RawCall raw_ptr
| StructuralConstraint_rotations_raw_set
    (this : raw_ptr) (value : raw_ptr) : RawCall bool
(* ConstraintMask *)
| ConstraintMask_isDisplacementConstrainedX_raw (this : raw_ptr) : RawCall bool
| ConstraintMask_isDisplacementConstrainedX_raw_set
    (this : raw_ptr) (value : bool) : RawCall bool
| ConstraintMask_isDisplacementConstrainedY_raw (this : raw_ptr) : RawCall bool
| ConstraintMask_isDisplacementConstrainedY_raw_set
    (this : raw_ptr) (value : bool) : RawCall bool
| ConstraintMask_isDisplacementConstrainedZ_raw (this : raw_ptr) : RawCall bool
| ConstraintMask_isDisplacementConstrainedZ_raw_set
    (this : raw_ptr) (value : bool) : RawCall bool
| ConstraintMask_isRotationConstrainedX_raw (this : raw_ptr) : RawCall bool
| ConstraintMask_isRotationConstrainedX_raw_set
    (this : raw_ptr) (value : bool) : RawCall bool
| ConstraintMask_isRotationConstrainedY_raw (this : raw_ptr) : RawCall bool
| ConstraintMask_isRotationConstrainedY_raw_set
    (this : raw_ptr) (value : bool) : RawCall bool
| ConstraintMask_isRotationConstrainedZ_raw (this : raw_ptr) : RawCall bool
| ConstraintMask_isRotationConstrainedZ_raw_set
    (this : raw_ptr) (value : bool) : RawCall bool.

(** A raw call without its result type, for traces. *)
Definition AnyCall : Type := { R : Type & RawCall R }.
Definition anycall {R} (c : RawCall R) : AnyCall := existT _ R c.

(** * Wrapper programs

    A wrapper either returns, or makes a raw call and goes on with what the
    host hands back.  The wrapper classes have no data members, so a
    program carries no state of its own. *)
Inductive Prog (A : Type) : Type :=
| Ret (a : A)
| Call (R : Type) (c : RawCall R) (k : R -> Prog A).

Arguments Ret {A} a.
Arguments Call {A R} c k.

Fixpoint bind {A B} (p : Prog A) (f : A -> Prog B) : Prog B :=
  match p with
  | Ret a => f a
  | Call c k => Call c (fun r => bind (k r) f)
  end.

Definition ret {A} (a : A) : Prog A := Ret a.
Definition call {R} (c : RawCall R) : Prog R := Call c Ret.

Declare Scope prog_scope.
Delimit Scope prog_scope with prog.
Notation "x <- c1 ;; c2" := (bind c1 (fun x => c2))
  (at level 61, c1 at next level, right associativity) : prog_scope.
Notation "c1 ;; c2" := (bind c1 (fun _ => c2))
  (at level 61, right associativity) : prog_scope.
Local Open Scope prog_scope.

(** ** Running a program against a host

    The host owns all state ([World]) and answers every raw call. *)
Section Host.
Variable World : Type.

Definition Host : Type := forall R, RawCall R -> World -> R * World.

(** What a run leaves behind: the value returned, the host state, and the
    raw calls made, each with the host state it was made in. *)
Record Outcome (A : Type) : Type := mkOutcome {
  result : A;
  world : World;
  trace : list (AnyCall * World)
}.
Arguments mkOutcome {A} result world trace.
Arguments result {A} _.
Arguments world {A} _.
Arguments trace {A} _.

Fixpoint exec {A} (h : Host) (p : Prog A) (w : World) : Outcome A :=
  match p with
  | Ret a => mkOutcome a w []
  | Call c k =>
      let rw := h _ c w in
      let o := exec h (k (fst rw)) (snd rw) in
      mkOutcome (result o) (world o) ((anycall c, w) :: trace o)
  end.

(** The outcome of a run that consists of the one raw call [c], with the
    host's answer converted by [conv]. *)
Definition one_call {R A} (h : Host) (c : RawCall R) (conv : R -> A)
           (w : World) : Outcome A :=
  mkOutcome (conv (fst (h _ c w))) (snd (h _ c w)) [(anycall c, w)].
End Host.

Arguments mkOutcome {World A} result world trace.
Arguments result {World A} _.
Arguments world {World A} _.
Arguments trace {World A} _.
Arguments exec {World A} h p w.
Arguments one_call {World R A} h c conv w.

(** * Marshalling helpers *)

(** [a[i] = x] on an allocated array.  A store outside the array is
    undefined in C++; none of the loops below makes one, and the model
    leaves the array as it is. *)
Fixpoint array_store {T} (a : list T) (i : nat) (x : T) : list T :=
  match a, i with
  | [], _ => []
  | _ :: a', O => x :: a'
  | y :: a', S i' => y :: array_store a' i' x
  end.

(** [new T[n]]: [n] entries of indeterminate content [junk]. *)
Definition new_array {T} (n : nat) (junk : T) : array_ptr T := Some (repeat junk n).

(** The entries that can be read through an array pointer; none through
    the null pointer. *)
Definition array_entries {T} (value_ : array_ptr T) : list T :=
  match value_ with
  | Some a => a
  | None => []
  end.

(** [value_[i] = x] through the pointer. *)
Definition ptr_store {T} (value_ : array_ptr T) (i : nat) (x : T) : array_ptr T :=
  match value_ with
  | Some a => Some (array_store a i x)
  | None => None
  end.

(** The marshalling loop of the vector-taking setters:
    [for (size_t i = 0; i < value.size(); ++i) value_[i] = conv(value[i]);] *)
Definition fill_array {S T} (conv : S -> T) (value : list S)
           (value_ : array_ptr T) : array_ptr T :=
  fold_left
    (fun value_ i =>
       match nth_error value i with
       | Some x => ptr_store value_ i (conv x)
       | None => value_
       end)
    (seq 0 (List.length value)) value_.

(** [res.assign(p, p + s)] on a vector of [core::Ptr]: one [Ptr] for each
    of [p[0]], ..., [p[s-1]], in that order. *)
Definition assign (p : size_t -> raw_ptr) (s : size_t) : list Ptr :=
  List.map (fun i => mkPtr (p (N.of_nat i))) (seq 0 (N.to_nat s)).

(** The value of the local [size_t s] after a raw call that took it by
    reference: what the host stored, or still the indeterminate value
    [s] it was created with. *)
Definition stored (written : option size_t) (s : size_t) : size_t :=
  match written with
  | Some v => v
  | None => s
  end.

(** * The inline wrappers, class by class

    Each definition follows the body of the C++ wrapper of the same name.
    The transient buffers of the marshalling ([new[]]/[delete[]] and
    [core::DeallocateArray]) are storage only: a pointer to data is
    modelled by the data, so they leave no trace in the model. *)

Module AdditiveFEADeckBuilder.

Definition create : Prog Ptr :=
  res <- call AdditiveFEADeckBuilder_create_raw ;;
  ret (mkPtr res).

Definition createSTLMap (this : raw_ptr) : Prog Ptr :=
  res <- call (AdditiveFEADeckBuilder_createSTLMap_raw this) ;;
  ret (mkPtr res).

Definition createConvection (this : raw_ptr) : Prog Ptr :=
  res <- call (AdditiveFEADeckBuilder_createConvection_raw this) ;;
  ret (mkPtr res).

Definition append (this : raw_ptr) (card : Ptr) : Prog unit :=
  call (AdditiveFEADeckBuilder_append_raw this (get card)).

Definition createGenericCard (this : raw_ptr) (name value : string) : Prog Ptr :=
  res <- call (AdditiveFEADeckBuilder_createGenericCard_raw
                 this (c_str name) (c_str value)) ;;
  ret (mkPtr res).

Definition createVoidCard (this : raw_ptr) (card : AdditiveFEACard) : Prog Ptr :=
  res <- call (AdditiveFEADeckBuilder_createVoidCard_raw this card) ;;
  ret (mkPtr res).

Definition createIntCard (this : raw_ptr) (card : AdditiveFEACard)
           (value : int) : Prog Ptr :=
  res <- call (AdditiveFEADeckBuilder_createIntCard_raw this card value) ;;
  ret (mkPtr res).

Definition createDoubleCard (this : raw_ptr) (card : AdditiveFEACard)
           (value : double) : Prog Ptr :=
  res <- call (AdditiveFEADeckBuilder_createDoubleCard_raw this card value) ;;
  ret (mkPtr res).

Definition createStringCard (this : raw_ptr) (card : AdditiveFEACard)
           (value : string) : Prog Ptr :=
  res <- call (AdditiveFEADeckBuilder_createStringCard_raw
                 this card (c_str value)) ;;
  ret (mkPtr res).

Definition createStringArrayCard (this : raw_ptr) (card : AdditiveFEACard)
           (value : list string) : Prog Ptr :=
  let value_ : array_ptr char_ptr :=
    match value with
    | [] => None
    | _ :: _ => new_array (List.length value) None
    end in
  let value_ := fill_array c_str value value_ in
  res <- call (AdditiveFEADeckBuilder_createStringArrayCard_raw
                 this card value_ (N.of_nat (List.length value))) ;;
  ret (mkPtr res).

Definition createBuildPlateZBoundsCard (this : raw_ptr)
           (zTop zBottom : double) : Prog Ptr :=
  res <- call (AdditiveFEADeckBuilder_createBuildPlateZBoundsCard_raw
                 this zTop zBottom) ;;
  ret (mkPtr res).

Definition createDiskCheckCard (this : raw_ptr) (i1 : int) (r1 : double)
  : Prog Ptr :=
  res <- call (AdditiveFEADeckBuilder_createDiskCheckCard_raw this i1 r1) ;;
  ret (mkPtr res).

Definition createSTLMapCard (this : raw_ptr) (map : Ptr) : Prog Ptr :=
  res <- call (AdditiveFEADeckBuilder_createSTLMapCard_raw this (get map)) ;;
  ret (mkPtr res).

Definition createConvectionCard (this : raw_ptr) (convection : Ptr) : Prog Ptr :=
  res <- call (AdditiveFEADeckBuilder_createConvectionCard_raw
                 this (get convection)) ;;
  ret (mkPtr res).

Definition createBuildPlateXYExtensionCard (this : raw_ptr)
           (left right front back : double) : Prog Ptr :=
  res <- call (AdditiveFEADeckBuilder_createBuildPlateXYExtensionCard_raw
                 this left right front back) ;;
  ret (mkPtr res).

(** [s] is the indeterminate value the local [size_t s] starts with. *)
Definition cards (this : raw_ptr) (s : size_t) : Prog (list Ptr) :=
  let res : list Ptr := [] in
  ps <- call (AdditiveFEADeckBuilder_cards_raw this) ;;
  let p := fst ps in
  let s := stored (snd ps) s in
  match p with
  | Some p => ret (assign p s)
  | None => ret res
  end.

End AdditiveFEADeckBuilder.

Module ConfigurationParameterCell.

Definition parentColumn (this : raw_ptr) : Prog Ptr :=
  res <- call (ConfigurationParameterCell_parentColumn_raw this) ;;
  ret (mkPtr res).

Definition expression (this : raw_ptr) : Prog string :=
  let res : string := EmptyString in
  p <- call (ConfigurationParameterCell_expression_raw this) ;;
  match p with
  | Some bytes => ret (c_string_chars bytes)
  | None => ret res
  end.

Definition expression_set (this : raw_ptr) (value : string) : Prog bool :=
  call (ConfigurationParameterCell_expression_raw_set this (c_str value)).

Definition value (this : raw_ptr) : Prog double :=
  res <- call (ConfigurationParameterCell_value_raw this) ;;
  ret res.

Definition value_set (this : raw_ptr) (value : double) : Prog bool :=
  call (ConfigurationParameterCell_value_raw_set this value).

End ConfigurationParameterCell.

Module LoadCaseItems.

Definition item (this : raw_ptr) (index : size_t) : Prog Ptr :=
  res <- call (LoadCaseItems_item_raw this index) ;;
  ret (mkPtr res).

Definition itemByName (this : raw_ptr) (name : string) : Prog Ptr :=
  res <- call (LoadCaseItems_itemByName_raw this (c_str name)) ;;
  ret (mkPtr res).

Definition count (this : raw_ptr) : Prog size_t :=
  res <- call (LoadCaseItems_count_raw this) ;;
  ret res.

(** [for (size_t i = 0; i < count(); ++i) { *result = item(i); ++result; }]
    The output iterator is modelled by the sequence of values assigned
    through it, [written].  The loop is cut off after [fuel] tests of its
    condition, and [None] says that the fuel did not suffice. *)
Fixpoint copyTo_loop (this : raw_ptr) (fuel : nat) (i : size_t)
         (written : list Ptr) : Prog (option (list Ptr)) :=
  match fuel with
  | O => ret None
  | S fuel' =>
      n <- count this ;;
      if (i <? n)%N then
        x <- item this i ;;
        copyTo_loop this fuel' (size_incr i) (written ++ [x])
      else ret (Some written)
  end.

Definition copyTo (this : raw_ptr) (fuel : nat) : Prog (option (list Ptr)) :=
  copyTo_loop this fuel 0%N [].

End LoadCaseItems.

Module SimAttribute.

Definition name (this : raw_ptr) : Prog string :=
  let res : string := EmptyString in
  p <- call (SimAttribute_name_raw this) ;;
  match p with
  | Some bytes => ret (c_string_chars bytes)
  | None => ret res
  end.

Definition name_set (this : raw_ptr) (value : string) : Prog bool :=
  call (SimAttribute_name_raw_set this (c_str value)).

(** [s] is the indeterminate value the local [size_t s] starts with. *)
Definition inputEntities (this : raw_ptr) (s : size_t) : Prog (list Ptr) :=
  let res : list Ptr := [] in
  ps <- call (SimAttribute_inputEntities_raw this) ;;
  let p := fst ps in
  let s := stored (snd ps) s in
  match p with
  | Some p => ret (assign p s)
  | None => ret res
  end.

Definition inputEntities_set (this : raw_ptr) (value : list Ptr) : Prog bool :=
  let value_ : array_ptr raw_ptr := new_array (List.length value) nullptr in
  let value_ := fill_array get value value_ in
  res <- call (SimAttribute_inputEntities_raw_set
                 this value_ (N.of_nat (List.length value))) ;;
  ret res.

End SimAttribute.

Module StructuralConstraint.

Definition type (this : raw_ptr) : Prog ConstraintTypes :=
  res <- call (StructuralConstraint_type_raw this) ;;
  ret res.

Definition type_set (this : raw_ptr) (value : ConstraintTypes) : Prog bool :=
  call (StructuralConstraint_type_raw_set this value).

Definition mask (this : raw_ptr) : Prog Ptr :=
  res <- call (StructuralConstraint_mask_raw this) ;;
  ret (mkPtr res).

Definition mask_set (this : raw_ptr) (value : Ptr) : Prog bool :=
  call (StructuralConstraint_mask_raw_set this (get value)).

Definition displacements (this : raw_ptr) : Prog Ptr :=
  res <- call (StructuralConstraint_displacements_raw this) ;;
  ret (mkPtr res).

Definition displacements_set (this : raw_ptr) (value : Ptr) : Prog bool :=
  call (StructuralConstraint_displacements_raw_set this (get value)).

Definition rotations (this : raw_ptr) : Prog Ptr :=
  res <- call (StructuralConstraint_rotations_raw this) ;;
  ret (mkPtr res).

Definition rotations_set (this : raw_ptr) (value : Ptr) : Prog bool :=
  call (StructuralConstraint_rotations_raw_set this (get value)).

End StructuralConstraint.

Module ConstraintMask.

Definition isDisplacementConstrainedX (this : raw_ptr) : Prog bool :=
  res <- call (ConstraintMask_isDisplacementConstrainedX_raw this) ;;
  ret res.

Definition isDisplacementConstrainedX_set (this : raw_ptr) (value : bool)
  : Prog bool :=
  call (ConstraintMask_isDisplacementConstrainedX_raw_set this value).

Definition isDisplacementConstrainedY (this : raw_ptr) : Prog bool :=
  res <- call (ConstraintMask_isDisplacementConstrainedY_raw this) ;;
  ret res.

Definition isDisplacementConstrainedY_set (this : raw_ptr) (value : bool)
  : Prog bool :=
  call (ConstraintMask_isDisplacementConstrainedY_raw_set this value).

Definition isDisplacementConstrainedZ (this : raw_ptr) : Prog bool :=
  res <- call (ConstraintMask_isDisplacementConstrainedZ_raw this) ;;
  ret res.

Definition isDisplacementConstrainedZ_set (this : raw_ptr) (value : bool)
  : Prog bool :=
  call (ConstraintMask_isDisplacementConstrainedZ_raw_set this value).

Definition isRotationConstrainedX (this : raw_ptr) : Prog bool :=
  res <- call (ConstraintMask_isRotationConstrainedX_raw this) ;;
  ret res.

Definition isRotationConstrainedX_set (this : raw_ptr) (value : bool)
  : Prog bool :=
  call (ConstraintMask_isRotationConstrainedX_raw_set this value).

Definition isRotationConstrainedY (this : raw_ptr) : Prog bool :=
  res <- call (ConstraintMask_isRotationConstrainedY_raw this) ;;
  ret res.

Definition isRotationConstrainedY_set (this : raw_ptr) (value : bool)
  : Prog bool :=
  call (ConstraintMask_isRotationConstrainedY_raw_set this value).

Definition isRotationConstrainedZ (this : raw_ptr) : Prog bool :=
  res <- call (ConstraintMask_isRotationConstrainedZ_raw this) ;;
  ret res.

Definition isRotationConstrainedZ_set (this : raw_ptr) (value : bool)
  : Prog bool :=
  call (ConstraintMask_isRotationConstrainedZ_raw_set this value).

End ConstraintMask.

(** * The forwarding contract

    The specification describes every wrapper as "client calls method,
    method marshals arguments, forwards to virtual raw method".  The
    definitions of this section write that description down, independently
    of the wrapper bodies above, so that the two can be compared. *)

(** How the answer of a raw method becomes the result of the public one. *)
Inductive Marshal : Type -> Type -> Type :=
| Unchanged (T : Type) : Marshal T T
    (* bool, double, enumeration and size_t results; void *)
| WrapPtr : Marshal raw_ptr Ptr
    (* a raw object pointer, handed out as a core::Ptr *)
| ToString : Marshal char_ptr string
    (* a C string, handed out as a std::string *)
| ToVector (s : size_t) : Marshal (host_array * option size_t) (list Ptr).
    (* a raw array with its size, handed out as a std::vector of core::Ptr *)

Definition convert {R A} (m : Marshal R A) : R -> A :=
  match m in Marshal R A return R -> A with
  | Unchanged _ => fun r => r
  | WrapPtr => fun r => mkPtr r
  | ToString => fun p =>
      match p with
      | Some bytes => c_string_chars bytes
      | None => EmptyString
      end
  | ToVector s => fun ps =>
      match fst ps with
      | Some p => assign p (stored (snd ps) s)
      | None => []
      end
  end.

(** The marshalled form of a vector argument: [None] (no array) only for an
    empty vector of strings, otherwise the array of the converted
    elements. *)
Definition marshal_strings (value : list string) : array_ptr char_ptr :=
  match value with
  | [] => None
  | _ :: _ => Some (List.map c_str value)
  end.

Definition marshal_ptrs (value : list Ptr) : array_ptr raw_ptr :=
  Some (List.map get value).

(** [Forwards p c m]: the public method call [p] corresponds to the raw
    call [c], whose answer it hands out as [m] says.  One line for each
    public method that has a raw method, with the arguments marshalled as
    the specification says: a [core::Ptr] as the pointer it holds, a
    [std::string] as its C string, a vector as an array and its size,
    everything else as it is. *)
Inductive Forwards : forall {A R : Type}, Prog A -> RawCall R -> Marshal R A -> Prop :=
(* AdditiveFEADeckBuilder *)
| fw_create :
    Forwards AdditiveFEADeckBuilder.create
             AdditiveFEADeckBuilder_create_raw WrapPtr
| fw_createSTLMap this :
    Forwards (AdditiveFEADeckBuilder.createSTLMap this)
             (AdditiveFEADeckBuilder_createSTLMap_raw this) WrapPtr
| fw_createConvection this :
    Forwards (AdditiveFEADeckBuilder.createConvection this)
             (AdditiveFEADeckBuilder_createConvection_raw this) WrapPtr
| fw_append this card :
    Forwards (AdditiveFEADeckBuilder.append this card)
             (AdditiveFEADeckBuilder_append_raw this (get card)) (Unchanged unit)
| fw_createGenericCard this name value :
    Forwards (AdditiveFEADeckBuilder.createGenericCard this name value)
             (AdditiveFEADeckBuilder_createGenericCard_raw
                this (c_str name) (c_str value)) WrapPtr
| fw_createVoidCard this card :
    Forwards (AdditiveFEADeckBuilder.createVoidCard this card)
             (AdditiveFEADeckBuilder_createVoidCard_raw this card) WrapPtr
| fw_createIntCard this card value :
    Forwards (AdditiveFEADeckBuilder.createIntCard this card value)
             (AdditiveFEADeckBuilder_createIntCard_raw this card value) WrapPtr
| fw_createDoubleCard this card value :
    Forwards (AdditiveFEADeckBuilder.createDoubleCard this card value)
             (AdditiveFEADeckBuilder_createDoubleCard_raw this card value) WrapPtr
| fw_createStringCard this card value :
    Forwards (AdditiveFEADeckBuilder.createStringCard this card value)
             (AdditiveFEADeckBuilder_createStringCard_raw
                this card (c_str value)) WrapPtr
| fw_createStringArrayCard this card value :
    Forwards (AdditiveFEADeckBuilder.createStringArrayCard this card value)
             (AdditiveFEADeckBuilder_createStringArrayCard_raw
                this card (marshal_strings value) (N.of_nat (List.length value)))
             WrapPtr
| fw_createBuildPlateZBoundsCard this zTop zBottom :
    Forwards (AdditiveFEADeckBuilder.createBuildPlateZBoundsCard this zTop zBottom)
             (AdditiveFEADeckBuilder_createBuildPlateZBoundsCard_raw
                this zTop zBottom) WrapPtr
| fw_createDiskCheckCard this i1 r1 :
    Forwards (AdditiveFEADeckBuilder.createDiskCheckCard this i1 r1)
             (AdditiveFEADeckBuilder_createDiskCheckCard_raw this i1 r1) WrapPtr
| fw_createSTLMapCard this map :
    Forwards (AdditiveFEADeckBuilder.createSTLMapCard this map)
             (AdditiveFEADeckBuilder_createSTLMapCard_raw this (get map)) WrapPtr
| fw_createConvectionCard this convection :
    Forwards (AdditiveFEADeckBuilder.createConvectionCard this convection)
             (AdditiveFEADeckBuilder_createConvectionCard_raw
                this (get convection)) WrapPtr
| fw_createBuildPlateXYExtensionCard this left right front back :
    Forwards (AdditiveFEADeckBuilder.createBuildPlateXYExtensionCard
                this left right front back)
             (AdditiveFEADeckBuilder_createBuildPlateXYExtensionCard_raw
                this left right front back) WrapPtr
| fw_cards this s :
    Forwards (AdditiveFEADeckBuilder.cards this s)
             (AdditiveFEADeckBuilder_cards_raw this) (ToVector s)
(* ConfigurationParameterCell *)
| fw_parentColumn this :
    Forwards (ConfigurationParameterCell.parentColumn this)
             (ConfigurationParameterCell_parentColumn_raw this) WrapPtr
| fw_expression this :
    Forwards (ConfigurationParameterCell.expression this)
             (ConfigurationParameterCell_expression_raw this) ToString
| fw_expression_set this value :
    Forwards (ConfigurationParameterCell.expression_set this value)
             (ConfigurationParameterCell_expression_raw_set this (c_str value))
             (Unchanged bool)
| fw_value this :
    Forwards (ConfigurationParameterCell.value this)
             (ConfigurationParameterCell_value_raw this) (Unchanged double)
| fw_value_set this value :
    Forwards (ConfigurationParameterCell.value_set this value)
             (ConfigurationParameterCell_value_raw_set this value) (Unchanged bool)
(* LoadCaseItems *)
| fw_item this index :
    Forwards (LoadCaseItems.item this index)
             (LoadCaseItems_item_raw this index) WrapPtr
| fw_itemByName this name :
    Forwards (LoadCaseItems.itemByName this name)
             (LoadCaseItems_itemByName_raw this (c_str name)) WrapPtr
| fw_count this :
    Forwards (LoadCaseItems.count this)
             (LoadCaseItems_count_raw this) (Unchanged size_t)
(* SimAttribute *)
| fw_name this :
    Forwards (SimAttribute.name this) (SimAttribute_name_raw this) ToString
| fw_name_set this value :
    Forwards (SimAttribute.name_set this value)
             (SimAttribute_name_raw_set this (c_str value)) (Unchanged bool)
| fw_inputEntities this s :
    Forwards (SimAttribute.inputEntities this s)
             (SimAttribute_inputEntities_raw this) (ToVector s)
| fw_inputEntities_set this value :
    Forwards (SimAttribute.inputEntities_set this value)
             (SimAttribute_inputEntities_raw_set
                this (marshal_ptrs value) (N.of_nat (List.length value)))
             (Unchanged bool)
(* StructuralConstraint *)
| fw_type this :
    Forwards (StructuralConstraint.type this)
             (StructuralConstraint_type_raw this) (Unchanged ConstraintTypes)
| fw_type_set this value :
    Forwards (StructuralConstraint.type_set this value)
             (StructuralConstraint_type_raw_set this value) (Unchanged bool)
| fw_mask this :
    Forwards (StructuralConstraint.mask this)
             (StructuralConstraint_mask_raw this) WrapPtr
| fw_mask_set this value :
    Forwards (StructuralConstraint.mask_set this value)
             (StructuralConstraint_mask_raw_set this (get value)) (Unchanged bool)
| fw_displacements this :
    Forwards (StructuralConstraint.displacements this)
             (StructuralConstraint_displacements_raw this) WrapPtr
| fw_displacements_set this value :
    Forwards (StructuralConstraint.displacements_set this value)
             (StructuralConstraint_displacements_raw_set this (get value))
             (Unchanged bool)
| fw_rotations this :
    Forwards (StructuralConstraint.rotations this)
             (StructuralConstraint_rotations_raw this) WrapPtr
| fw_rotations_set this value :
    Forwards (StructuralConstraint.rotations_set this value)
             (StructuralConstraint_rotations_raw_set this (get value))
             (Unchanged bool)
(* ConstraintMask *)
| fw_isDisplacementConstrainedX this :
    Forwards (ConstraintMask.isDisplacementConstrainedX this)
             (ConstraintMask_isDisplacementConstrainedX_raw this) (Unchanged bool)
| fw_isDisplacementConstrainedX_set this value :
    Forwards (ConstraintMask.isDisplacementConstrainedX_set this value)
             (ConstraintMask_isDisplacementConstrainedX_raw_set this value)
             (Unchanged bool)
| fw_isDisplacementConstrainedY this :
    Forwards (ConstraintMask.isDisplacementConstrainedY this)
             (ConstraintMask_isDisplacementConstrainedY_raw this) (Unchanged bool)
| fw_isDisplacementConstrainedY_set this value :
    Forwards (ConstraintMask.isDisplacementConstrainedY_set this value)
             (ConstraintMask_isDisplacementConstrainedY_raw_set this value)
             (Unchanged bool)
| fw_isDisplacementConstrainedZ this :
    Forwards (ConstraintMask.isDisplacementConstrainedZ this)
             (ConstraintMask_isDisplacementConstrainedZ_raw this) (Unchanged bool)
| fw_isDisplacementConstrainedZ_set this value :
    Forwards (ConstraintMask.isDisplacementConstrainedZ_set this value)
             (ConstraintMask_isDisplacementConstrainedZ_raw_set this value)
             (Unchanged bool)
| fw_isRotationConstrainedX this :
    Forwards (ConstraintMask.isRotationConstrainedX this)
             (ConstraintMask_isRotationConstrainedX_raw this) (Unchanged bool)
| fw_isRotationConstrainedX_set this value :
    Forwards (ConstraintMask.isRotationConstrainedX_set this value)
             (ConstraintMask_isRotationConstrainedX_raw_set this value)
             (Unchanged bool)
| fw_isRotationConstrainedY this :
    Forwards (ConstraintMask.isRotationConstrainedY this)
             (ConstraintMask_isRotationConstrainedY_raw this) (Unchanged bool)
| fw_isRotationConstrainedY_set this value :
    Forwards (ConstraintMask.isRotationConstrainedY_set this value)
             (ConstraintMask_isRotationConstrainedY_raw_set this value)
             (Unchanged bool)
| fw_isRotationConstrainedZ this :
    Forwards (ConstraintMask.isRotationConstrainedZ this)
             (ConstraintMask_isRotationConstrainedZ_raw this) (Unchanged bool)
| fw_isRotationConstrainedZ_set this value :
    Forwards (ConstraintMask.isRotationConstrainedZ_set this value)
             (ConstraintMask_isRotationConstrainedZ_raw_set this value)
             (Unchanged bool).

(** The public inline wrappers of the six classes: those with a raw method
    of their own, and the template method [LoadCaseItems::copyTo], which
    has none and is written in terms of [count] and [item].  The
    type-identification members every class also declares ([classType],
    [objectType], [queryInterface], and [interfaceId], which returns
    [classType()]) are exported by the host; the headers hold no body of
    theirs that reaches the raw interface, and they are not modelled. *)
Inductive PublicMethod : forall {A : Type}, Prog A -> Prop :=
| pm_forwards A R (p : Prog A) (c : RawCall R) (m : Marshal R A) :
    Forwards p c m -> PublicMethod p
| pm_copyTo this fuel :
    PublicMethod (LoadCaseItems.copyTo this fuel).

(** * Hosts to run the wrappers against *)

(** The answer of a host that fails every request: null, false, zero. *)
Definition refusal {R : Type} (c : RawCall R) : R :=
  match c in RawCall R return R with
  | AdditiveFEADeckBuilder_create_raw
  | AdditiveFEADeckBuilder_createSTLMap_raw _
  | AdditiveFEADeckBuilder_createConvection_raw _
  | AdditiveFEADeckBuilder_createGenericCard_raw _ _ _
  | AdditiveFEADeckBuilder_createVoidCard_raw _ _
  | AdditiveFEADeckBuilder_createIntCard_raw _ _ _
  | AdditiveFEADeckBuilder_createDoubleCard_raw _ _ _
  | AdditiveFEADeckBuilder_createStringCard_raw _ _ _
  | AdditiveFEADeckBuilder_createStringArrayCard_raw _ _ _ _
  | AdditiveFEADeckBuilder_createBuildPlateZBoundsCard_raw _ _ _
  | AdditiveFEADeckBuilder_createDiskCheckCard_raw _ _ _
  | AdditiveFEADeckBuilder_createSTLMapCard_raw _ _
  | AdditiveFEADeckBuilder_createConvectionCard_raw _ _
  | AdditiveFEADeckBuilder_createBuildPlateXYExtensionCard_raw _ _ _ _ _
  | ConfigurationParameterCell_parentColumn_raw _
  | LoadCaseItems_item_raw _ _
  | LoadCaseItems_itemByName_raw _ _
  | StructuralConstraint_mask_raw _
  | StructuralConstraint_displacements_raw _
  | StructuralConstraint_rotations_raw _ => nullptr
  | AdditiveFEADeckBuilder_append_raw _ _ => tt
  | AdditiveFEADeckBuilder_cards_raw _
  | SimAttribute_inputEntities_raw _ => (None, None)
  | ConfigurationParameterCell_expression_raw _
  | SimAttribute_name_raw _ => None
  | ConfigurationParameterCell_value_raw _ => S754_zero false
  | LoadCaseItems_count_raw _ => 0%N
  | StructuralConstraint_type_raw _ => UnknownConstraintType
  | ConfigurationParameterCell_expression_raw_set _ _
  | ConfigurationParameterCell_value_raw_set _ _
  | SimAttribute_name_raw_set _ _
  | SimAttribute_inputEntities_raw_set _ _ _
  | StructuralConstraint_type_raw_set _ _
  | StructuralConstraint_mask_raw_set _ _
  | StructuralConstraint_displacements_raw_set _ _
  | StructuralConstraint_rotations_raw_set _ _
  | ConstraintMask_isDisplacementConstrainedX_raw _
  | ConstraintMask_isDisplacementConstrainedX_raw_set _ _
  | ConstraintMask_isDisplacementConstrainedY_raw _
  | ConstraintMask_isDisplacementConstrainedY_raw_set _ _
  | ConstraintMask_isDisplacementConstrainedZ_raw _
  | ConstraintMask_isDisplacementConstrainedZ_raw_set _ _
  | ConstraintMask_isRotationConstrainedX_raw _
  | ConstraintMask_isRotationConstrainedX_raw_set _ _
  | ConstraintMask_isRotationConstrainedY_raw _
  | ConstraintMask_isRotationConstrainedY_raw_set _ _
  | ConstraintMask_isRotationConstrainedZ_raw _
  | ConstraintMask_isRotationConstrainedZ_raw_set _ _ => false
  end.

(** A host whose state is the list of objects it holds, in order.  It
    answers [count_raw] and [item_raw] for a load-case collection, the
    array getters with all its objects, and names every attribute "load";
    mutators succeed.  No request changes its state. *)
Definition shelf_host : Host (list raw_ptr) :=
  fun R c w =>
    match c in RawCall R return R * list raw_ptr with
    | LoadCaseItems_count_raw _ => (N.of_nat (List.length w), w)
    | LoadCaseItems_item_raw _ i => (nth (N.to_nat i) w nullptr, w)
    | AdditiveFEADeckBuilder_cards_raw _ =>
        ((Some (fun i => nth (N.to_nat i) w nullptr),
          Some (N.of_nat (List.length w))), w)
    | SimAttribute_inputEntities_raw _ =>
        ((Some (fun i => nth (N.to_nat i) w nullptr),
          Some (N.of_nat (List.length w))), w)
    | SimAttribute_name_raw _ => (c_str "load", w)
    | ConfigurationParameterCell_expression_raw _ => (c_str "load", w)
    | SimAttribute_name_raw_set _ _ => (true, w)
    | ConstraintMask_isDisplacementConstrainedX_raw _ => (true, w)
    | StructuralConstraint_mask_raw _ => (7%N, w)
    | c' => (refusal c', w)
    end.

(** A host whose state counts the raw calls it has served; it holds a
    load-case collection of [size] items, item [i] at address [100 + i],
    and fails every other request. *)
Definition counting_host (size : size_t) : Host N :=
  fun R c w =>
    match c in RawCall R return R * N with
    | LoadCaseItems_count_raw _ => (size, (w + 1)%N)
    | LoadCaseItems_item_raw _ i => ((100 + i)%N, (w + 1)%N)
    | c' => (refusal c', (w + 1)%N)
    end.

(** A host without state whose string getters answer with a pointer to an
    empty C string (a lone NUL); it fails every other request. *)
Definition unnamed_host : Host unit :=
  fun R c w =>
    match c in RawCall R return R * unit with
    | SimAttribute_name_raw _ => (c_str "", w)
    | ConfigurationParameterCell_expression_raw _ => (c_str "", w)
    | c' => (refusal c', w)
    end.

(** A host that keeps what the mutators hand it: the bytes of the name of
    an attribute (the expression of a cell is kept in the same place), its
    input entities, and its mask.  The getters hand back what is kept; every
    other request fails. *)
Record Kept : Type := mkKept {
  kept_name : char_ptr;
  kept_entities : list raw_ptr;
  kept_mask : raw_ptr
}.

Definition keeping_host : Host Kept :=
  fun R c w =>
    match c in RawCall R return R * Kept with
    | SimAttribute_name_raw_set _ value =>
        (true, mkKept value (kept_entities w) (kept_mask w))
    | SimAttribute_name_raw _ => (kept_name w, w)
    | ConfigurationParameterCell_expression_raw_set _ value =>
        (true, mkKept value (kept_entities w) (kept_mask w))
    | ConfigurationParameterCell_expression_raw _ => (kept_name w, w)
    | SimAttribute_inputEntities_raw_set _ value value_size =>
        (true,
         mkKept (kept_name w)
                (firstn (N.to_nat value_size) (array_entries value))
                (kept_mask w))
    | SimAttribute_inputEntities_raw _ =>
        ((Some (fun i => nth (N.to_nat i) (kept_entities w) nullptr),
          Some (N.of_nat (List.length (kept_entities w)))), w)
    | StructuralConstraint_mask_raw_set _ value =>
        (true, mkKept (kept_name w) (kept_entities w) value)
    | StructuralConstraint_mask_raw _ => (kept_mask w, w)
    | c' => (refusal c', w)
    end.

(** A host like the shelf host whose arrays have a spare entry: the array
    getters hand back all the objects it holds but store a size that leaves
    the last one out. *)
Definition spare_host : Host (list raw_ptr) :=
  fun R c w =>
    match c in RawCall R return R * list raw_ptr with
    | AdditiveFEADeckBuilder_cards_raw _ =>
        ((Some (fun i => nth (N.to_nat i) w nullptr),
          Some (N.of_nat (List.length w - 1))), w)
    | SimAttribute_inputEntities_raw _ =>
        ((Some (fun i => nth (N.to_nat i) w nullptr),
          Some (N.of_nat (List.length w - 1))), w)
    | c' => (refusal c', w)
    end.

(** A host that creates every generic card at address 50, keeps the cards
    appended to its deck (latest first), and fails every other request. *)
Definition deck_host : Host (list raw_ptr) :=
  fun R c w =>
    match c in RawCall R return R * list raw_ptr with
    | AdditiveFEADeckBuilder_createGenericCard_raw _ _ _ => (50%N, w)
    | AdditiveFEADeckBuilder_append_raw _ card => (tt, card :: w)
    | c' => (refusal c', w)
    end.

(** The raw calls of a run of [copyTo] that starts at index [i] and writes
    [k] elements: the loop test and the element, [k] times over, and the
    loop test that ends the loop. *)
Fixpoint copyTo_calls (this : raw_ptr) (i : size_t) (k : nat) : list AnyCall :=
  match k with
  | O => [anycall (LoadCaseItems_count_raw this)]
  | S k' =>
      anycall (LoadCaseItems_count_raw this)
      :: anycall (LoadCaseItems_item_raw this i)
      :: copyTo_calls this (i + 1)%N k'
  end.

(** The public methods of [AdditiveFEADeckBuilder] that hand out a card
    ([core::Ptr<AdditiveFEADeckBuilderCard>]), each with its raw method. *)
Inductive CardFactory : Prog Ptr -> RawCall raw_ptr -> Prop :=
| cf_createGenericCard this name value :
    CardFactory (AdditiveFEADeckBuilder.createGenericCard this name value)
                (AdditiveFEADeckBuilder_createGenericCard_raw
                   this (c_str name) (c_str value))
| cf_createVoidCard this card :
    CardFactory (AdditiveFEADeckBuilder.createVoidCard this card)
                (AdditiveFEADeckBuilder_createVoidCard_raw this card)
| cf_createIntCard this card value :
    CardFactory (AdditiveFEADeckBuilder.createIntCard this card value)
                (AdditiveFEADeckBuilder_createIntCard_raw this card value)
| cf_createDoubleCard this card value :
    CardFactory (AdditiveFEADeckBuilder.createDoubleCard this card value)
                (AdditiveFEADeckBuilder_createDoubleCard_raw this card value)
| cf_createStringCard this card value :
    CardFactory (AdditiveFEADeckBuilder.createStringCard this card value)
                (AdditiveFEADeckBuilder_createStringCard_raw
                   this card (c_str value))
| cf_createStringArrayCard this card value :
    CardFactory (AdditiveFEADeckBuilder.createStringArrayCard this card value)
                (AdditiveFEADeckBuilder_createStringArrayCard_raw
                   this card (marshal_strings value)
                   (N.of_nat (List.length value)))
| cf_createBuildPlateZBoundsCard this zTop zBottom :
    CardFactory (AdditiveFEADeckBuilder.createBuildPlateZBoundsCard
                   this zTop zBottom)
                (AdditiveFEADeckBuilder_createBuildPlateZBoundsCard_raw
                   this zTop zBottom)
| cf_createDiskCheckCard this i1 r1 :
    CardFactory (AdditiveFEADeckBuilder.createDiskCheckCard this i1 r1)
                (AdditiveFEADeckBuilder_createDiskCheckCard_raw this i1 r1)
| cf_createSTLMapCard this map :
    CardFactory (AdditiveFEADeckBuilder.createSTLMapCard this map)
                (AdditiveFEADeckBuilder_createSTLMapCard_raw this (get map))
| cf_createConvectionCard this convection :
    CardFactory (AdditiveFEADeckBuilder.createConvectionCard this convection)
                (AdditiveFEADeckBuilder_createConvectionCard_raw
                   this (get convection))
| cf_createBuildPlateXYExtensionCard this left right front back :
    CardFactory (AdditiveFEADeckBuilder.createBuildPlateXYExtensionCard
                   this left right front back)
                (AdditiveFEADeckBuilder_createBuildPlateXYExtensionCard_raw
                   this left right front back).

(** ** Raw methods that throw

    The raw methods are plain virtual functions: nothing in the headers
    keeps one from throwing.  The wrappers hold no [try] block and no
    [throw]; an exception that a raw method throws ends the wrapper at
    that call and goes on to the caller. *)

(** What is thrown, by the message it carries. *)
Definition exception := string.

(** How a call ends: it returns a value, or it throws. *)
Inductive Answer (R : Type) : Type :=
| Returns (r : R)
| Throws (e : exception).

Arguments Returns {R} r.
Arguments Throws {R} e.

(** A host whose raw methods may throw. *)
Definition ThrowingHost (World : Type) : Type :=
  forall R, RawCall R -> World -> Answer R * World.

Fixpoint exec_throwing {World A} (h : ThrowingHost World) (p : Prog A)
         (w : World) : Outcome World (Answer A) :=
  match p with
  | Ret a => mkOutcome (Returns a) w []
  | Call c k =>
      let rw := h _ c w in
      match fst rw with
      | Returns r =>
          let o := exec_throwing h (k r) (snd rw) in
          mkOutcome (result o) (world o) ((anycall c, w) :: trace o)
      | Throws e => mkOutcome (Throws e) (snd rw) [(anycall c, w)]
      end
  end.

(** The outcome of a run that consists of the one raw call [c]: the host's
    answer converted by [conv] when the call returns, the exception of the
    call when it throws. *)
Definition one_call_throwing {World R A} (h : ThrowingHost World)
           (c : RawCall R) (conv : R -> A) (w : World)
  : Outcome World (Answer A) :=
  match fst (h _ c w) with
  | Returns r => mkOutcome (Returns (conv r)) (snd (h _ c w)) [(anycall c, w)]
  | Throws e => mkOutcome (Throws e) (snd (h _ c w)) [(anycall c, w)]
  end.

(** A host that never throws, as a host that may. *)
Definition never_throws {World} (h : Host World) : ThrowingHost World :=
  fun R c w => (Returns (fst (h R c w)), snd (h R c w)).

(** A host without state whose [name_raw] throws, with and without an
    argument; every other raw method returns and fails. *)
Definition faulty_host : ThrowingHost unit :=
  fun R c w =>
    match c in RawCall R return Answer R * unit with
    | SimAttribute_name_raw _ => (Throws "host fault"%string, w)
    | SimAttribute_name_raw_set _ _ => (Throws "host fault"%string, w)
    | c' => (Returns (refusal c'), w)
    end.

(** A host with two counters: [count_raw] steps the first and leaves the
    second alone, [item_raw] steps the second and leaves the first alone;
    every other request fails and changes nothing.  Its load-case
    collection has one item, at address 100. *)
Definition split_host : Host (N * N) :=
  fun R c w =>
    match c in RawCall R return R * (N * N) with
    | LoadCaseItems_count_raw _ => (1%N, ((fst w + 1)%N, snd w))
    | LoadCaseItems_item_raw _ i => ((100 + i)%N, (fst w, (snd w + 1)%N))
    | c' => (refusal c', w)
    end.

(** * Properties of the marshalling helpers *)

Lemma array_store_middle {T} (front back : list T) (old x : T) :
  array_store (front ++ old :: back) (List.length front) x = front ++ x :: back.
Proof.
  induction front as [|y front IH]; simpl.
  - reflexivity.
  - now rewrite IH.
Qed.

(** The loop, started at index [length done] on an array whose first
    entries are already converted, converts the rest. *)
Lemma fill_loop_from {S T} (conv : S -> T) (junk : T) (value todo done : list S) :
  value = done ++ todo ->
  fold_left
    (fun value_ i =>
       match nth_error value i with
       | Some x => ptr_store value_ i (conv x)
       | None => value_
       end)
    (seq (List.length done) (List.length todo))
    (Some (List.map conv done ++ repeat junk (List.length todo)))
  = Some (List.map conv value).
Proof.
  revert done.
  induction todo as [|x todo IH]; intros done Hvalue.
  - simpl. subst value. now rewrite !app_nil_r.
  - cbn [List.length seq fold_left repeat].
    assert (Hx : nth_error value (List.length done) = Some x).
    { subst value. rewrite nth_error_app2 by lia.
      now rewrite Nat.sub_diag. }
    rewrite Hx. cbn [ptr_store].
    replace (List.length done) with (List.length (List.map conv done)) at 2
      by apply length_map.
    rewrite array_store_middle.
    specialize (IH (done ++ [x])).
    rewrite length_app, map_app, <- !app_assoc in IH.
    cbn [List.length List.map app] in IH.
    rewrite Nat.add_1_r in IH.
    apply IH, Hvalue.
Qed.

(** Whatever a fresh array holds, the loop leaves the converted elements
    in it, in order. *)
Lemma fill_array_new {S T} (conv : S -> T) (junk : T) (value : list S) :
  fill_array conv value (new_array (List.length value) junk)
  = Some (List.map conv value).
Proof.
  unfold fill_array, new_array.
  exact (@fill_loop_from S T conv junk value value [] eq_refl).
Qed.

Lemma fill_array_strings (value : list string) :
  fill_array c_str value
    match value with
    | [] => None
    | _ :: _ => new_array (List.length value) None
    end
  = marshal_strings value.
Proof.
  destruct value as [|x value].
  - reflexivity.
  - now rewrite fill_array_new.
Qed.

Lemma fill_array_ptrs (value : list Ptr) :
  fill_array get value (new_array (List.length value) nullptr)
  = marshal_ptrs value.
Proof. apply fill_array_new. Qed.

Lemma assign_length (p : size_t -> raw_ptr) (s : size_t) :
  List.length (assign p s) = N.to_nat s.
Proof. unfold assign. now rewrite length_map, length_seq. Qed.

Lemma assign_nth (p : size_t -> raw_ptr) (s i : size_t) :
  (i < s)%N -> nth_error (assign p s) (N.to_nat i) = Some (mkPtr (p i)).
Proof.
  intros Hi. unfold assign.
  rewrite nth_error_map, nth_error_seq.
  destruct (Nat.ltb_spec (N.to_nat i) (N.to_nat s)) as [_|Hge]; [|lia].
  cbn. now rewrite N2Nat.id.
Qed.

Lemma c_string_chars_terminated (s : string) :
  has_NUL s = false -> c_string_chars (s ++ String NUL "") = s.
Proof.
  induction s as [|c s IH]; cbn.
  - reflexivity.
  - destruct (Ascii.eqb c NUL); cbn; [discriminate|].
    intros H. now rewrite IH.
Qed.

Lemma is_null_iff (p : raw_ptr) : is_null p = true <-> p = nullptr.
Proof. unfold is_null, nullptr. apply N.eqb_eq. Qed.

(** * Properties of runs *)

(** Every wrapper of the table runs as the one raw call the table names. *)
Lemma exec_forwards {A R} {p : Prog A} {c : RawCall R} {m : Marshal R A} :
  Forwards p c m ->
  forall World (h : Host World) (w : World),
    exec h p w = one_call h c (convert m) w.
Proof.
  intros H World h w.
  destruct H; unfold one_call; cbn - [fill_array new_array marshal_strings marshal_ptrs];
    try reflexivity.
  - rewrite fill_array_strings. reflexivity.
  - destruct (h _ (AdditiveFEADeckBuilder_cards_raw this) w) as [[[p|] wr] w'];
      reflexivity.
  - destruct (h _ (ConfigurationParameterCell_expression_raw this) w) as [[b|] w'];
      reflexivity.
  - destruct (h _ (SimAttribute_name_raw this) w) as [[b|] w']; reflexivity.
  - destruct (h _ (SimAttribute_inputEntities_raw this) w) as [[[p|] wr] w'];
      reflexivity.
  - rewrite fill_array_ptrs. reflexivity.
Qed.

(** ** The loop of [copyTo] over a collection that stays as it is *)
Section CopyToFixed.
Variable World : Type.
Variable h : Host World.
Variable this : raw_ptr.
Variable w : World.

Let n : size_t := fst (h _ (LoadCaseItems_count_raw this) w).
Let at_index (i : size_t) : Ptr :=
  mkPtr (fst (h _ (LoadCaseItems_item_raw this i) w)).

Hypothesis count_fixed : snd (h _ (LoadCaseItems_count_raw this) w) = w.
Hypothesis item_fixed :
  forall i, (i < n)%N -> snd (h _ (LoadCaseItems_item_raw this i) w) = w.
Hypothesis count_in_range : (n <= SIZE_MAX)%N.

Lemma size_incr_below (i : size_t) : (i < n)%N -> size_incr i = (i + 1)%N.
Proof.
  intros Hi. unfold size_incr. apply N.mod_small.
  unfold SIZE_MAX in count_in_range. lia.
Qed.

Lemma copyTo_loop_fixed (d : nat) :
  forall (i : size_t) (written : list Ptr) (fuel : nat),
    (i <= n)%N -> N.to_nat (n - i) = d -> d < fuel ->
    result (exec h (LoadCaseItems.copyTo_loop this fuel i written) w)
    = Some (written
            ++ List.map (fun k => at_index (i + N.of_nat k)%N) (seq 0 d))
    /\ world (exec h (LoadCaseItems.copyTo_loop this fuel i written) w) = w.
Proof.
  induction d as [|d IH]; intros i written fuel Hle Hd Hfuel;
    (destruct fuel as [|fuel]; [lia|]); cbn; fold n; rewrite count_fixed.
  - assert (Hlt : (i <? n)%N = false) by (apply N.ltb_ge; lia).
    rewrite Hlt. cbn. now rewrite app_nil_r.
  - assert (Hlt : (i <? n)%N = true) by (apply N.ltb_lt; lia).
    rewrite Hlt. cbn. rewrite item_fixed by lia.
    rewrite size_incr_below by lia.
    destruct (IH (i + 1)%N (written ++ [at_index i]) fuel) as [Hres Hworld];
      try lia.
    fold (at_index i). rewrite Hres, Hworld. split; [|reflexivity].
    rewrite <- app_assoc. cbn [app]. rewrite N.add_0_r.
    rewrite <- seq_shift, map_map.
    do 3 f_equal. apply map_ext. intros k. f_equal. lia.
Qed.
End CopyToFixed.

(** ** Runs against a host that may throw *)

(** Every wrapper of the table runs as the one raw call the table names,
    also when that call throws. *)
Lemma exec_throwing_forwards {A R} {p : Prog A} {c : RawCall R} {m : Marshal R A} :
  Forwards p c m ->
  forall World (h : ThrowingHost World) (w : World),
    exec_throwing h p w = one_call_throwing h c (convert m) w.
Proof.
  intros H World h w.
  destruct H; unfold one_call_throwing;
    cbn - [fill_array new_array marshal_strings marshal_ptrs];
    rewrite ?fill_array_strings, ?fill_array_ptrs;
    match goal with
    | |- context [fst (h ?R ?c w)] => destruct (h R c w) as [[r|e] w']
    end; cbn; try reflexivity.
  - destruct r as [[p|] wr]; reflexivity.
  - destruct r as [b|]; reflexivity.
  - destruct r as [b|]; reflexivity.
  - destruct r as [[p|] wr]; reflexivity.
Qed.

(** [copyTo] returns when [count_raw] and [item_raw] of its object do. *)
Lemma copyTo_loop_returns World (h : ThrowingHost World) (this : raw_ptr) :
  (forall w', exists n, fst (h _ (LoadCaseItems_count_raw this) w') = Returns n) ->
  (forall i w', exists x, fst (h _ (LoadCaseItems_item_raw this i) w') = Returns x) ->
  forall (fuel : nat) (i : size_t) (acc : list Ptr) (w : World),
  exists v,
    result (exec_throwing h (LoadCaseItems.copyTo_loop this fuel i acc) w)
    = Returns v.
Proof.
  intros Hcount Hitem fuel.
  induction fuel as [|fuel IH]; intros i acc w; cbn.
  - now exists None.
  - destruct (Hcount w) as [n Hn]. rewrite Hn. cbn.
    destruct (i <? n)%N; cbn.
    + destruct (Hitem i (snd (h _ (LoadCaseItems_count_raw this) w))) as [x Hx].
      rewrite Hx. cbn. apply IH.
    + now exists (Some acc).
Qed.

(** [copyTo] changes nothing that [count_raw] and [item_raw] of its object
    leave as it is. *)
Lemma copyTo_loop_frame World (h : Host World) X (obs : World -> X)
      (this : raw_ptr) :
  (forall w', obs (snd (h _ (LoadCaseItems_count_raw this) w')) = obs w') ->
  (forall i w', obs (snd (h _ (LoadCaseItems_item_raw this i) w')) = obs w') ->
  forall (fuel : nat) (i : size_t) (acc : list Ptr) (w : World),
    obs (world (exec h (LoadCaseItems.copyTo_loop this fuel i acc) w)) = obs w.
Proof.
  intros Hcount Hitem fuel.
  induction fuel as [|fuel IH]; intros i acc w; cbn.
  - reflexivity.
  - destruct (i <? fst (h _ (LoadCaseItems_count_raw this) w))%N; cbn.
    + now rewrite IH, Hitem, Hcount.
    + apply Hcount.
Qed.

(** * The claims *)

(** C1, as amended.  Every public method that has a raw method of its own
    (every line of [Forwards]: all public inline methods of the six classes
    but [LoadCaseItems::copyTo]) makes exactly one raw call, the call to
    that raw method, and its result is the answer of that call: wrapped in
    a [core::Ptr] for a pointer, unchanged for a bool, double, enumeration
    or size_t (and for void), copied into a [std::string] for a C string,
    and into a vector of [core::Ptr] for an array.  The host state after
    the method is the state after that call. *)
Theorem wrapper_is_one_raw_call A R (p : Prog A) (c : RawCall R) (m : Marshal R A) :
  Forwards p c m ->
  forall World (h : Host World) (w : World),
    result (exec h p w) = convert m (fst (h _ c w))
    /\ world (exec h p w) = snd (h _ c w)
    /\ trace (exec h p w) = [(anycall c, w)].
Proof.
  intros H World h w. rewrite (exec_forwards H). now cbn.
Qed.

(** The getter of the X-displacement flag of the constraint mask at
    address 1, on a host that answers it with [true]. *)
Lemma wrapper_is_one_raw_call_witness :
  Forwards (ConstraintMask.isDisplacementConstrainedX 1%N)
           (ConstraintMask_isDisplacementConstrainedX_raw 1%N) (Unchanged bool)
  /\ (result (exec shelf_host (ConstraintMask.isDisplacementConstrainedX 1%N) [4%N])
      = true
      /\ world (exec shelf_host (ConstraintMask.isDisplacementConstrainedX 1%N) [4%N])
         = [4%N]
      /\ trace (exec shelf_host (ConstraintMask.isDisplacementConstrainedX 1%N) [4%N])
         = [(anycall (ConstraintMask_isDisplacementConstrainedX_raw 1%N), [4%N])]).
Proof.
  split.
  - apply fw_isDisplacementConstrainedX.
  - exact (wrapper_is_one_raw_call _ _ _ _ _ (fw_isDisplacementConstrainedX 1%N)
                                   _ shelf_host [4%N]).
Defined.

(** C1 as stated fails for the public method [LoadCaseItems::copyTo]: on a
    collection of one item it makes three raw calls ([count_raw],
    [item_raw(0)], [count_raw]), so its run is not one raw call to any raw
    method, whatever the conversion of the answer. *)
Lemma copyTo_is_not_one_raw_call :
  PublicMethod (LoadCaseItems.copyTo 9%N 5)
  /\ trace (exec (counting_host 1%N) (LoadCaseItems.copyTo 9%N 5) 0%N)
     = [(anycall (LoadCaseItems_count_raw 9%N), 0%N);
        (anycall (LoadCaseItems_item_raw 9%N 0%N), 1%N);
        (anycall (LoadCaseItems_count_raw 9%N), 2%N)]
  /\ ~ (exists R (c : RawCall R) (conv : R -> option (list Ptr)),
           exec (counting_host 1%N) (LoadCaseItems.copyTo 9%N 5) 0%N
           = one_call (counting_host 1%N) c conv 0%N).
Proof.
  split; [apply pm_copyTo|]. split; [reflexivity|].
  intros (R & c & conv & H).
  apply (f_equal (fun o => List.length (trace o))) in H.
  cbn in H. discriminate H.
Qed.




(** C3.  When [cards_raw] hands back a non-null array [p] and reports the
    size [s], [cards()] returns a vector of exactly [s] elements whose
    [i]-th element is a [Ptr] holding [p[i]], in the order of the array;
    and so does [SimAttribute::inputEntities()] over
    [inputEntities_raw]. *)
Theorem array_getters_are_faithful
        World (h : Host World) (w : World) (this : raw_ptr) (s0 : size_t)
        (p : size_t -> raw_ptr) (s : size_t) :
  (fst (h _ (AdditiveFEADeckBuilder_cards_raw this) w) = (Some p, Some s) ->
   List.length (result (exec h (AdditiveFEADeckBuilder.cards this s0) w))
   = N.to_nat s
   /\ forall i, (i < s)%N ->
        nth_error (result (exec h (AdditiveFEADeckBuilder.cards this s0) w))
                  (N.to_nat i)
        = Some (mkPtr (p i)))
  /\ (fst (h _ (SimAttribute_inputEntities_raw this) w) = (Some p, Some s) ->
      List.length (result (exec h (SimAttribute.inputEntities this s0) w))
      = N.to_nat s
      /\ forall i, (i < s)%N ->
           nth_error (result (exec h (SimAttribute.inputEntities this s0) w))
                     (N.to_nat i)
           = Some (mkPtr (p i))).
Proof.
  split; intros Hraw; cbn; rewrite Hraw; cbn;
    (split; [apply assign_length | intros i Hi; now apply assign_nth]).
Qed.

(** The shelf host holds the objects 4, 5 and 6 and hands them out, as
    cards of a deck and as input entities alike. *)
Lemma array_getters_are_faithful_witness :
  fst (shelf_host _ (AdditiveFEADeckBuilder_cards_raw 1%N) [4%N; 5%N; 6%N])
  = (Some (fun i => nth (N.to_nat i) [4%N; 5%N; 6%N] nullptr), Some 3%N)
  /\ fst (shelf_host _ (SimAttribute_inputEntities_raw 1%N) [4%N; 5%N; 6%N])
     = (Some (fun i => nth (N.to_nat i) [4%N; 5%N; 6%N] nullptr), Some 3%N)
  /\ result (exec shelf_host (AdditiveFEADeckBuilder.cards 1%N 77%N) [4%N; 5%N; 6%N])
     = [mkPtr 4%N; mkPtr 5%N; mkPtr 6%N]
  /\ List.length
       (result (exec shelf_host (AdditiveFEADeckBuilder.cards 1%N 77%N)
                     [4%N; 5%N; 6%N])) = 3
  /\ List.length
       (result (exec shelf_host (SimAttribute.inputEntities 1%N 77%N)
                     [4%N; 5%N; 6%N])) = 3.
Proof.
  split; [reflexivity|]. split; [reflexivity|]. split; [reflexivity|].
  pose proof (array_getters_are_faithful
                _ shelf_host [4%N; 5%N; 6%N] 1%N 77%N
                (fun i => nth (N.to_nat i) [4%N; 5%N; 6%N] nullptr) 3%N)
    as [Hcards Hentities].
  split.
  - exact (proj1 (Hcards eq_refl)).
  - exact (proj1 (Hentities eq_refl)).
Defined.

(** C4.  [createStringArrayCard] calls [createStringArrayCard_raw] once,
    with the size argument [v.size()] and an array whose [i]-th entry, for
    every [i] below [v.size()], is the C string of [v[i]] (and which has no
    entry at any other index), and returns the [Ptr] of the raw result;
    [SimAttribute::inputEntities(v)] calls [inputEntities_raw] once, with
    the size [v.size()] and an array whose [i]-th entry is the raw pointer
    of [v[i]], and returns the raw bool. *)
Theorem vector_setters_marshal_faithfully
        World (h : Host World) (w : World) (this : raw_ptr)
        (card : AdditiveFEACard) (v : list string) (vp : list Ptr) :
  (exists value_ : array_ptr char_ptr,
      exec h (AdditiveFEADeckBuilder.createStringArrayCard this card v) w
      = one_call h (AdditiveFEADeckBuilder_createStringArrayCard_raw
                      this card value_ (N.of_nat (List.length v)))
                 mkPtr w
      /\ forall i, nth_error (array_entries value_) i
                   = option_map c_str (nth_error v i))
  /\ (exists value_ : array_ptr raw_ptr,
         exec h (SimAttribute.inputEntities_set this vp) w
         = one_call h (SimAttribute_inputEntities_raw_set
                         this value_ (N.of_nat (List.length vp)))
                    (fun res => res) w
         /\ forall i, nth_error (array_entries value_) i
                      = option_map get (nth_error vp i)).
Proof.
  split.
  - exists (marshal_strings v). split.
    + exact (exec_forwards (fw_createStringArrayCard this card v) _ h w).
    + intros i. destruct v as [|y v].
      * now destruct i.
      * apply nth_error_map.
  - exists (marshal_ptrs vp). split.
    + exact (exec_forwards (fw_inputEntities_set this vp) _ h w).
    + intros i. apply nth_error_map.
Qed.

(** C5.  When [name_raw] hands back a non-null C string, [name()] returns
    the [std::string] of exactly its characters, and so does
    [expression()] over [expression_raw].  The setters hand the raw method
    the C string of their argument: a pointer to the bytes of the argument,
    all of them and in order, followed by the terminating NUL; read back as
    a C string this is the argument again whenever the argument has no NUL
    inside. *)
Theorem string_marshalling_is_faithful
        World (h : Host World) (w : World) (this : raw_ptr) (value : string) :
  (forall bytes,
      fst (h _ (SimAttribute_name_raw this) w) = Some bytes ->
      result (exec h (SimAttribute.name this) w) = c_string_chars bytes)
  /\ (forall bytes,
         fst (h _ (ConfigurationParameterCell_expression_raw this) w) = Some bytes ->
         result (exec h (ConfigurationParameterCell.expression this) w)
         = c_string_chars bytes)
  /\ trace (exec h (SimAttribute.name_set this value) w)
     = [(anycall (SimAttribute_name_raw_set
                    this (Some (value ++ String NUL "")%string)), w)]
  /\ trace (exec h (ConfigurationParameterCell.expression_set this value) w)
     = [(anycall (ConfigurationParameterCell_expression_raw_set
                    this (Some (value ++ String NUL "")%string)), w)]
  /\ (has_NUL value = false ->
      option_map c_string_chars (c_str value) = Some value).
Proof.
  repeat split.
  - intros bytes Hraw. cbn. now rewrite Hraw.
  - intros bytes Hraw. cbn. now rewrite Hraw.
  - intros Hvalue. cbn. now rewrite c_string_chars_terminated.
Qed.

(** The shelf host names every attribute and every cell "load"; renaming
    to "bolt" hands the host the five bytes b, o, l, t, NUL. *)
Lemma string_marshalling_is_faithful_witness :
  fst (shelf_host _ (SimAttribute_name_raw 1%N) []) = Some ("load" ++ String NUL "")%string
  /\ fst (shelf_host _ (ConfigurationParameterCell_expression_raw 1%N) [])
     = Some ("load" ++ String NUL "")%string
  /\ has_NUL "bolt" = false
  /\ result (exec shelf_host (SimAttribute.name 1%N) []) = "load"%string
  /\ result (exec shelf_host (ConfigurationParameterCell.expression 1%N) [])
     = "load"%string
  /\ option_map c_string_chars (c_str "bolt") = Some "bolt"%string.
Proof.
  split; [reflexivity|]. split; [reflexivity|]. split; [reflexivity|].
  destruct (string_marshalling_is_faithful _ shelf_host [] 1%N "bolt")
    as (Hname & Hexpression & _ & _ & Hback).
  split; [exact (Hname _ eq_refl)|].
  split; [exact (Hexpression _ eq_refl)|].
  exact (Hback eq_refl).
Defined.

(** A [std::string] with a NUL inside is handed over whole, but a host that
    reads its argument as a C string sees the part before that NUL only. *)
Example c_str_with_inner_NUL :
  c_str ("ab" ++ String NUL "cd")
  = Some ("ab" ++ String NUL ("cd" ++ String NUL ""))%string
  /\ option_map c_string_chars (c_str ("ab" ++ String NUL "cd")) = Some "ab"%string.
Proof. split; reflexivity. Qed.

(** C6, as amended.  No argument is validated, rejected or filtered: for
    every argument value, every public method that has a raw method of its
    own (every line of [Forwards]) reaches that raw method, in whatever
    state the host is, exactly once and reaches no other, with the
    arguments marshalled and otherwise as they are.  In particular a null
    [core::Ptr] arrives as the null pointer ([append], [mask]), an
    enumeration value arrives as it is whether or not it names an
    enumerator, an empty string arrives as a pointer to a lone NUL, and an
    empty vector arrives with size 0 (with an empty array in
    [inputEntities], with no array in [createStringArrayCard]). *)
Theorem no_argument_is_validated
        A R (p : Prog A) (c : RawCall R) (m : Marshal R A) :
  Forwards p c m ->
  forall World (h : Host World) (w : World) (this : raw_ptr),
    trace (exec h p w) = [(anycall c, w)]
    /\ trace (exec h (AdditiveFEADeckBuilder.append this (mkPtr nullptr)) w)
       = [(anycall (AdditiveFEADeckBuilder_append_raw this nullptr), w)]
    /\ trace (exec h (StructuralConstraint.mask_set this (mkPtr nullptr)) w)
       = [(anycall (StructuralConstraint_mask_raw_set this nullptr), w)]
    /\ (forall value : ConstraintTypes,
           trace (exec h (StructuralConstraint.type_set this value) w)
           = [(anycall (StructuralConstraint_type_raw_set this value), w)])
    /\ trace (exec h (SimAttribute.name_set this "") w)
       = [(anycall (SimAttribute_name_raw_set this (Some (String NUL ""))), w)]
    /\ trace (exec h (SimAttribute.inputEntities_set this []) w)
       = [(anycall (SimAttribute_inputEntities_raw_set this (Some []) 0%N), w)]
    /\ (forall card,
           trace (exec h (AdditiveFEADeckBuilder.createStringArrayCard this card []) w)
           = [(anycall (AdditiveFEADeckBuilder_createStringArrayCard_raw
                          this card None 0%N), w)]).
Proof.
  intros H World h w this.
  split; [now rewrite (exec_forwards H)|].
  repeat split.
Qed.

(** Setting the constraint type to 42, which names no enumerator, reaches
    [type_raw] with 42. *)
Lemma no_argument_is_validated_witness :
  Forwards (StructuralConstraint.type_set 1%N 42%Z)
           (StructuralConstraint_type_raw_set 1%N 42%Z) (Unchanged bool)
  /\ is_ConstraintTypes_enumerator 42%Z = false
  /\ trace (exec shelf_host (StructuralConstraint.type_set 1%N 42%Z) [])
     = [(anycall (StructuralConstraint_type_raw_set 1%N 42%Z), [])].
Proof.
  split; [apply fw_type_set|]. split; [reflexivity|].
  exact (proj1 (no_argument_is_validated
                  _ _ _ _ _ (fw_type_set 1%N 42%Z) _ shelf_host [] 1%N)).
Defined.

(** C6 as stated fails for the public method [LoadCaseItems::copyTo]: it
    has no raw method of its own, and on a collection of two items it
    reaches [count_raw] three times and [item_raw] twice, five raw calls
    in all and not exactly one. *)
Lemma copyTo_reaches_raw_methods_five_times :
  PublicMethod (LoadCaseItems.copyTo 9%N 5)
  /\ List.map fst (trace (exec (counting_host 2%N) (LoadCaseItems.copyTo 9%N 5) 0%N))
     = [anycall (LoadCaseItems_count_raw 9%N);
        anycall (LoadCaseItems_item_raw 9%N 0%N);
        anycall (LoadCaseItems_count_raw 9%N);
        anycall (LoadCaseItems_item_raw 9%N 1%N);
        anycall (LoadCaseItems_count_raw 9%N)]
  /\ ~ (exists R (c : RawCall R),
           trace (exec (counting_host 2%N) (LoadCaseItems.copyTo 9%N 5) 0%N)
           = [(anycall c, 0%N)]).
Proof.
  split; [apply pm_copyTo|]. split; [reflexivity|].
  intros (R & c & H).
  apply (f_equal (@List.length _)) in H.
  cbn in H. discriminate H.
Qed.




(** C8.  When [name_raw] hands back the null pointer, [name()] returns the
    empty string, and so does [expression()] when [expression_raw] does.
    The same empty string is returned when the raw method hands back a
    C string without characters, so at the public interface the two cases
    cannot be told apart. *)
Theorem null_string_reads_as_empty
        World (h : Host World) (w : World) (this : raw_ptr) :
  (fst (h _ (SimAttribute_name_raw this) w) = None ->
   result (exec h (SimAttribute.name this) w) = EmptyString
   /\ forall World' (h' : Host World') (w' : World') bytes,
        fst (h' _ (SimAttribute_name_raw this) w') = Some bytes ->
        c_string_chars bytes = EmptyString ->
        result (exec h' (SimAttribute.name this) w')
        = result (exec h (SimAttribute.name this) w))
  /\ (fst (h _ (ConfigurationParameterCell_expression_raw this) w) = None ->
      result (exec h (ConfigurationParameterCell.expression this) w) = EmptyString
      /\ forall World' (h' : Host World') (w' : World') bytes,
           fst (h' _ (ConfigurationParameterCell_expression_raw this) w')
           = Some bytes ->
           c_string_chars bytes = EmptyString ->
           result (exec h' (ConfigurationParameterCell.expression this) w')
           = result (exec h (ConfigurationParameterCell.expression this) w)).
Proof.
  split; intros Hnull; cbn; rewrite Hnull; cbn;
    (split; [reflexivity | intros World' h' w' bytes Hraw Hempty; now rewrite Hraw]).
Qed.

(** The counting host fails [name_raw] and [expression_raw] with null; the
    unnamed host answers both with an empty C string.  The getters return
    the empty string on both. *)
Lemma null_string_reads_as_empty_witness :
  fst (counting_host 0%N _ (SimAttribute_name_raw 1%N) 0%N) = None
  /\ fst (counting_host 0%N _ (ConfigurationParameterCell_expression_raw 1%N) 0%N)
     = None
  /\ fst (unnamed_host _ (SimAttribute_name_raw 1%N) tt) = Some (String NUL "")
  /\ c_string_chars (String NUL "") = EmptyString
  /\ result (exec (counting_host 0%N) (SimAttribute.name 1%N) 0%N) = EmptyString
  /\ result (exec (counting_host 0%N) (ConfigurationParameterCell.expression 1%N) 0%N)
     = EmptyString
  /\ result (exec unnamed_host (SimAttribute.name 1%N) tt)
     = result (exec (counting_host 0%N) (SimAttribute.name 1%N) 0%N).
Proof.
  split; [reflexivity|]. split; [reflexivity|].
  split; [reflexivity|]. split; [reflexivity|].
  destruct (null_string_reads_as_empty _ (counting_host 0%N) 0%N 1%N)
    as [Hname Hexpression].
  split; [exact (proj1 (Hname eq_refl))|].
  split; [exact (proj1 (Hexpression eq_refl))|].
  exact (proj2 (Hname eq_refl) _ unnamed_host tt _ eq_refl eq_refl).
Defined.

(** C9.  When [cards_raw] hands back the null pointer, [cards()] returns
    the empty vector, whatever the raw call stored in the size parameter
    ([written], nothing at all included) and whatever indeterminate value
    [s0] the size started with: the size is not looked at.  The same holds
    for [SimAttribute::inputEntities()] over [inputEntities_raw]. *)
Theorem null_array_reads_as_empty
        World (h : Host World) (w : World) (this : raw_ptr)
        (s0 : size_t) (written : option size_t) :
  (fst (h _ (AdditiveFEADeckBuilder_cards_raw this) w) = (None, written) ->
   result (exec h (AdditiveFEADeckBuilder.cards this s0) w) = [])
  /\ (fst (h _ (SimAttribute_inputEntities_raw this) w) = (None, written) ->
      result (exec h (SimAttribute.inputEntities this s0) w) = []).
Proof.
  split; intros Hnull; cbn; now rewrite Hnull.
Qed.

(** The counting host fails both array getters with null and stores no
    size; the size then still holds whatever it started with, here 77. *)
Lemma null_array_reads_as_empty_witness :
  fst (counting_host 0%N _ (AdditiveFEADeckBuilder_cards_raw 1%N) 0%N) = (None, None)
  /\ fst (counting_host 0%N _ (SimAttribute_inputEntities_raw 1%N) 0%N) = (None, None)
  /\ result (exec (counting_host 0%N) (AdditiveFEADeckBuilder.cards 1%N 77%N) 0%N) = []
  /\ result (exec (counting_host 0%N) (SimAttribute.inputEntities 1%N 77%N) 0%N) = [].
Proof.
  split; [reflexivity|]. split; [reflexivity|].
  destruct (null_array_reads_as_empty _ (counting_host 0%N) 0%N 1%N 77%N None)
    as [Hcards Hentities].
  split; [exact (Hcards eq_refl) | exact (Hentities eq_refl)].
Defined.

(** C10.  On a collection that stays as it is ([count_raw] and [item_raw]
    leave the host state [w] unchanged), whose count is a [size_t] value,
    [copyTo] finishes (any fuel above the count suffices) having written
    exactly [count()] elements, and for every [i] below [count()] the
    [i]-th element written is [item(i)]: the collection in increasing
    index order from index 0. *)
Theorem copyTo_enumerates_the_collection
        World (h : Host World) (w : World) (this : raw_ptr) (fuel : nat) :
  snd (h _ (LoadCaseItems_count_raw this) w) = w ->
  (forall i, (i < result (exec h (LoadCaseItems.count this) w))%N ->
             snd (h _ (LoadCaseItems_item_raw this i) w) = w) ->
  (result (exec h (LoadCaseItems.count this) w) <= SIZE_MAX)%N ->
  N.to_nat (result (exec h (LoadCaseItems.count this) w)) < fuel ->
  exists written : list Ptr,
    result (exec h (LoadCaseItems.copyTo this fuel) w) = Some written
    /\ List.length written
       = N.to_nat (result (exec h (LoadCaseItems.count this) w))
    /\ forall i : size_t,
         (i < result (exec h (LoadCaseItems.count this) w))%N ->
         nth_error written (N.to_nat i)
         = Some (result (exec h (LoadCaseItems.item this i) w)).
Proof.
  cbn. intros Hcount Hitem Hrange Hfuel.
  set (n := fst (h _ (LoadCaseItems_count_raw this) w)) in *.
  destruct (copyTo_loop_fixed World h this w Hcount Hitem Hrange
              (N.to_nat n) 0%N [] fuel) as [Hres _].
  - lia.
  - now rewrite N.sub_0_r.
  - exact Hfuel.
  - eexists. split; [exact Hres|]. cbn [app]. split.
    + now rewrite length_map, length_seq.
    + intros i Hi. rewrite nth_error_map, nth_error_seq.
      destruct (Nat.ltb_spec (N.to_nat i) (N.to_nat n)) as [_|Hge]; [|lia].
      cbn. now rewrite N2Nat.id.
Qed.

(** The shelf host holding 4, 5 and 6 as a load-case collection. *)
Lemma copyTo_enumerates_the_collection_witness :
  snd (shelf_host _ (LoadCaseItems_count_raw 1%N) [4%N; 5%N; 6%N]) = [4%N; 5%N; 6%N]
  /\ (forall i,
         (i < result (exec shelf_host (LoadCaseItems.count 1%N) [4%N; 5%N; 6%N]))%N ->
         snd (shelf_host _ (LoadCaseItems_item_raw 1%N i) [4%N; 5%N; 6%N])
         = [4%N; 5%N; 6%N])
  /\ (result (exec shelf_host (LoadCaseItems.count 1%N) [4%N; 5%N; 6%N]) <= SIZE_MAX)%N
  /\ N.to_nat (result (exec shelf_host (LoadCaseItems.count 1%N) [4%N; 5%N; 6%N])) < 4
  /\ result (exec shelf_host (LoadCaseItems.copyTo 1%N 4) [4%N; 5%N; 6%N])
     = Some [mkPtr 4%N; mkPtr 5%N; mkPtr 6%N]
  /\ exists written : list Ptr,
       result (exec shelf_host (LoadCaseItems.copyTo 1%N 4) [4%N; 5%N; 6%N])
       = Some written
       /\ List.length written
          = N.to_nat (result (exec shelf_host (LoadCaseItems.count 1%N)
                                   [4%N; 5%N; 6%N]))
       /\ forall i : size_t,
            (i < result (exec shelf_host (LoadCaseItems.count 1%N)
                              [4%N; 5%N; 6%N]))%N ->
            nth_error written (N.to_nat i)
            = Some (result (exec shelf_host (LoadCaseItems.item 1%N i)
                                 [4%N; 5%N; 6%N])).
Proof.
  split; [reflexivity|]. split; [reflexivity|].
  split; [vm_compute; discriminate|]. split; [vm_compute; lia|].
  split; [reflexivity|].
  apply (copyTo_enumerates_the_collection _ shelf_host [4%N; 5%N; 6%N] 1%N 4).
  - reflexivity.
  - reflexivity.
  - vm_compute; discriminate.
  - vm_compute; lia.
Defined.

(** * Further properties of the wrappers *)

(** ** Helpers *)

Lemma exec_bind A B (p : Prog A) (f : A -> Prog B) World (h : Host World) :
  forall w,
    exec h (bind p f) w =
    mkOutcome (result (exec h (f (result (exec h p w))) (world (exec h p w))))
              (world (exec h (f (result (exec h p w))) (world (exec h p w))))
              (trace (exec h p w)
               ++ trace (exec h (f (result (exec h p w))) (world (exec h p w)))).
Proof.
  induction p as [a|R c k IH]; intros w; cbn.
  - now destruct (exec h (f a) w).
  - now rewrite IH.
Qed.

Lemma size_incr_small (i n : size_t) :
  (i < n)%N -> (n <= SIZE_MAX)%N -> size_incr i = (i + 1)%N.
Proof.
  intros Hi Hn. unfold size_incr. apply N.mod_small.
  unfold SIZE_MAX in Hn. lia.
Qed.

(** The loop of [copyTo] against any host that answers [count_raw] with
    [size_t] values. *)
Section CopyToAnyHost.
Variable World : Type.
Variable h : Host World.
Variable this : raw_ptr.

Hypothesis count_in_size_t :
  forall w, (fst (h _ (LoadCaseItems_count_raw this) w) <= SIZE_MAX)%N.

Lemma copyTo_loop_calls (fuel : nat) :
  forall (i : size_t) (acc : list Ptr) (w : World) (out : list Ptr),
    result (exec h (LoadCaseItems.copyTo_loop this fuel i acc) w) = Some out ->
    exists k,
      List.length out = List.length acc + k
      /\ List.map fst (trace (exec h (LoadCaseItems.copyTo_loop this fuel i acc) w))
         = copyTo_calls this i k.
Proof.
  induction fuel as [|fuel IH]; intros i acc w out; cbn.
  - discriminate.
  - pose proof (count_in_size_t w) as Hn.
    destruct (N.ltb_spec i (fst (h _ (LoadCaseItems_count_raw this) w))) as [Hlt|Hge];
      cbn.
    + rewrite (size_incr_small _ _ Hlt Hn). intros Hout.
      destruct (IH _ _ _ _ Hout) as (k & Hlen & Hcalls).
      exists (S k). split.
      * rewrite Hlen, length_app. cbn. lia.
      * cbn. now rewrite Hcalls.
    + intros [= <-]. exists 0. split; [lia | reflexivity].
Qed.

Variable bound : size_t.
Hypothesis bound_in_size_t : (bound <= SIZE_MAX)%N.
Hypothesis count_bounded :
  forall w, (fst (h _ (LoadCaseItems_count_raw this) w) <= bound)%N.

Lemma copyTo_loop_finishes (fuel : nat) :
  forall (i : size_t) (acc : list Ptr) (w : World),
    (i <= bound)%N -> N.to_nat (bound - i) < fuel ->
    exists out,
      result (exec h (LoadCaseItems.copyTo_loop this fuel i acc) w) = Some out
      /\ List.length out <= List.length acc + N.to_nat (bound - i).
Proof.
  induction fuel as [|fuel IH]; intros i acc w Hi Hfuel; [lia|]. cbn.
  pose proof (count_bounded w) as Hn.
  destruct (N.ltb_spec i (fst (h _ (LoadCaseItems_count_raw this) w))) as [Hlt|Hge];
    cbn.
  - rewrite (size_incr_small i bound) by lia.
    destruct (IH (i + 1)%N
                 (acc ++ [mkPtr (fst (h _ (LoadCaseItems_item_raw this i)
                                        (snd (h _ (LoadCaseItems_count_raw this) w))))])
                 (snd (h _ (LoadCaseItems_item_raw this i)
                         (snd (h _ (LoadCaseItems_count_raw this) w)))))
      as (out & Hout & Hlen); try lia.
    exists out. split; [exact Hout|].
    rewrite length_app in Hlen. cbn in Hlen. lia.
  - exists acc. split; [reflexivity | lia].
Qed.
End CopyToAnyHost.

Lemma copyTo_calls_length (this : raw_ptr) (k : nat) :
  forall i, List.length (copyTo_calls this i k) = 2 * k + 1.
Proof.
  induction k as [|k IH]; intros i; cbn.
  - reflexivity.
  - rewrite IH. lia.
Qed.

(** ** [LoadCaseItems::copyTo] against a collection that may change *)

(** X1.  Whatever the host does to its state between the calls, as long as
    [count_raw] never answers more than [bound] (a [size_t] value),
    [copyTo] finishes: any fuel above [bound] suffices, and it has then
    written at most [bound] elements. *)
Theorem copyTo_finishes_within_bound
        World (h : Host World) (w : World) (this : raw_ptr)
        (bound : size_t) (fuel : nat) :
  (bound <= SIZE_MAX)%N ->
  (forall w', (fst (h _ (LoadCaseItems_count_raw this) w') <= bound)%N) ->
  N.to_nat bound < fuel ->
  exists written : list Ptr,
    result (exec h (LoadCaseItems.copyTo this fuel) w) = Some written
    /\ List.length written <= N.to_nat bound.
Proof.
  intros Hbound Hcount Hfuel.
  destruct (copyTo_loop_finishes World h this bound Hbound Hcount fuel 0%N [] w)
    as (out & Hout & Hlen).
  - lia.
  - now rewrite N.sub_0_r.
  - exists out. split; [exact Hout|].
    rewrite N.sub_0_r in Hlen. exact Hlen.
Qed.

(** The counting host of two items changes its state with every call and
    always counts two. *)
Lemma copyTo_finishes_within_bound_witness :
  (2 <= SIZE_MAX)%N
  /\ (forall w', (fst (counting_host 2%N _ (LoadCaseItems_count_raw 9%N) w') <= 2)%N)
  /\ N.to_nat 2 < 3
  /\ exists written : list Ptr,
       result (exec (counting_host 2%N) (LoadCaseItems.copyTo 9%N 3) 0%N)
       = Some written
       /\ List.length written <= N.to_nat 2.
Proof.
  split; [vm_compute; discriminate|].
  split; [intros w'; vm_compute; discriminate|].
  split; [vm_compute; lia|].
  apply (copyTo_finishes_within_bound _ (counting_host 2%N) 0%N 9%N 2%N 3).
  - vm_compute; discriminate.
  - intros w'; vm_compute; discriminate.
  - vm_compute; lia.
Defined.

(** X2.  Against any host that answers [count_raw] with [size_t] values, a
    run of [copyTo] that has written [k] elements has made exactly these
    raw calls, in this order, all on its own object: [count_raw], then for
    each index 0, 1, ..., [k]-1 in turn [item_raw] of that index followed
    by [count_raw].  That is [2k + 1] raw calls; the count is asked anew
    before every element. *)
Theorem copyTo_call_pattern
        World (h : Host World) (w : World) (this : raw_ptr) (fuel : nat)
        (written : list Ptr) :
  (forall w', (fst (h _ (LoadCaseItems_count_raw this) w') <= SIZE_MAX)%N) ->
  result (exec h (LoadCaseItems.copyTo this fuel) w) = Some written ->
  List.map fst (trace (exec h (LoadCaseItems.copyTo this fuel) w))
  = copyTo_calls this 0%N (List.length written)
  /\ List.length (trace (exec h (LoadCaseItems.copyTo this fuel) w))
     = 2 * List.length written + 1.
Proof.
  intros Hcount Hres.
  destruct (copyTo_loop_calls World h this Hcount fuel 0%N [] w written Hres)
    as (k & Hlen & Hcalls).
  cbn in Hlen. subst k.
  split; [exact Hcalls|].
  rewrite <- (length_map fst). unfold LoadCaseItems.copyTo.
  now rewrite Hcalls, copyTo_calls_length.
Qed.

Lemma copyTo_call_pattern_witness :
  (forall w', (fst (counting_host 2%N _ (LoadCaseItems_count_raw 9%N) w') <= SIZE_MAX)%N)
  /\ result (exec (counting_host 2%N) (LoadCaseItems.copyTo 9%N 4) 0%N)
     = Some [mkPtr 100%N; mkPtr 101%N]
  /\ List.map fst (trace (exec (counting_host 2%N) (LoadCaseItems.copyTo 9%N 4) 0%N))
     = [anycall (LoadCaseItems_count_raw 9%N);
        anycall (LoadCaseItems_item_raw 9%N 0%N);
        anycall (LoadCaseItems_count_raw 9%N);
        anycall (LoadCaseItems_item_raw 9%N 1%N);
        anycall (LoadCaseItems_count_raw 9%N)]
  /\ List.length (trace (exec (counting_host 2%N) (LoadCaseItems.copyTo 9%N 4) 0%N))
     = 5.
Proof.
  split; [intros w'; vm_compute; discriminate|].
  split; [reflexivity|].
  apply (copyTo_call_pattern
           _ (counting_host 2%N) 0%N 9%N 4 [mkPtr 100%N; mkPtr 101%N]).
  - intros w'; vm_compute; discriminate.
  - reflexivity.
Defined.

(** ** The array getters *)

Lemma assign_nil_iff (p : size_t -> raw_ptr) (s : size_t) :
  assign p s = [] <-> s = 0%N.
Proof.
  split.
  - intros H. apply (f_equal (@List.length _)) in H.
    rewrite assign_length in H. cbn in H. lia.
  - intros ->. reflexivity.
Qed.

Lemma assign_ext (p p' : size_t -> raw_ptr) (s : size_t) :
  (forall i, (i < s)%N -> p i = p' i) -> assign p s = assign p' s.
Proof.
  intros Hsame. unfold assign. apply map_ext_in.
  intros i Hi. apply in_seq in Hi. f_equal. apply Hsame. lia.
Qed.

(** X3.  When the raw method has stored the size, [cards()] returns the
    empty vector exactly when the raw method handed back the null pointer
    or stored the size 0; the caller cannot tell the two apart.  The same
    holds for [SimAttribute::inputEntities()]. *)
Theorem array_getter_is_empty_iff
        World (h : Host World) (w : World) (this : raw_ptr) (s0 : size_t)
        (p : host_array) (s : size_t) :
  (fst (h _ (AdditiveFEADeckBuilder_cards_raw this) w) = (p, Some s) ->
   (result (exec h (AdditiveFEADeckBuilder.cards this s0) w) = []
    <-> p = None \/ s = 0%N))
  /\ (fst (h _ (SimAttribute_inputEntities_raw this) w) = (p, Some s) ->
      (result (exec h (SimAttribute.inputEntities this s0) w) = []
       <-> p = None \/ s = 0%N)).
Proof.
  split; intros Hraw; cbn - [assign]; rewrite Hraw; cbn - [assign];
    (destruct p as [p|];
     [ split;
       [ intros H; right; now apply (assign_nil_iff p s)
       | intros [Hp|Hs]; [discriminate Hp | now apply assign_nil_iff] ]
     | split; [ intros _; now left | reflexivity ] ]).
Qed.

(** An empty shelf: the array is there, its size is 0. *)
Lemma array_getter_is_empty_iff_witness :
  fst (shelf_host _ (AdditiveFEADeckBuilder_cards_raw 1%N) [])
  = (Some (fun i => nth (N.to_nat i) [] nullptr), Some 0%N)
  /\ fst (shelf_host _ (SimAttribute_inputEntities_raw 1%N) [])
     = (Some (fun i => nth (N.to_nat i) [] nullptr), Some 0%N)
  /\ result (exec shelf_host (AdditiveFEADeckBuilder.cards 1%N 77%N) []) = []
  /\ result (exec shelf_host (SimAttribute.inputEntities 1%N 77%N) []) = [].
Proof.
  split; [reflexivity|]. split; [reflexivity|].
  destruct (array_getter_is_empty_iff
              _ shelf_host [] 1%N 77%N
              (Some (fun i => nth (N.to_nat i) [] nullptr)) 0%N)
    as [Hcards Hentities].
  split.
  - apply (proj2 (Hcards eq_refl)). now right.
  - apply (proj2 (Hentities eq_refl)). now right.
Defined.

(** X4.  The array getters read the entries below the stored size and no
    other: two raw arrays of the same stored size [s] that agree at every
    index below [s] give the same vector, whatever lies at [p[s]] and
    beyond. *)
Theorem array_getters_read_below_size_only
        World (h : Host World) (w : World)
        World' (h' : Host World') (w' : World')
        (this : raw_ptr) (s0 s0' : size_t)
        (p p' : size_t -> raw_ptr) (s : size_t) :
  (forall i, (i < s)%N -> p i = p' i) ->
  (fst (h _ (AdditiveFEADeckBuilder_cards_raw this) w) = (Some p, Some s) ->
   fst (h' _ (AdditiveFEADeckBuilder_cards_raw this) w') = (Some p', Some s) ->
   result (exec h (AdditiveFEADeckBuilder.cards this s0) w)
   = result (exec h' (AdditiveFEADeckBuilder.cards this s0') w'))
  /\ (fst (h _ (SimAttribute_inputEntities_raw this) w) = (Some p, Some s) ->
      fst (h' _ (SimAttribute_inputEntities_raw this) w') = (Some p', Some s) ->
      result (exec h (SimAttribute.inputEntities this s0) w)
      = result (exec h' (SimAttribute.inputEntities this s0') w')).
Proof.
  intros Hsame.
  split; intros Hraw Hraw'; cbn - [assign]; rewrite Hraw, Hraw'; cbn - [assign];
    now apply assign_ext.
Qed.

(** The shelf host holding 4 and 5, and the host with a spare entry holding
    4, 5 and 6: both store the size 2, and their arrays agree below index 2
    and differ at it. *)
Lemma array_getters_read_below_size_only_witness :
  (forall i, (i < 2)%N ->
             nth (N.to_nat i) [4%N; 5%N] nullptr
             = nth (N.to_nat i) [4%N; 5%N; 6%N] nullptr)
  /\ nth 2 [4%N; 5%N] nullptr <> nth 2 [4%N; 5%N; 6%N] nullptr
  /\ fst (shelf_host _ (AdditiveFEADeckBuilder_cards_raw 1%N) [4%N; 5%N])
     = (Some (fun i => nth (N.to_nat i) [4%N; 5%N] nullptr), Some 2%N)
  /\ fst (spare_host _ (AdditiveFEADeckBuilder_cards_raw 1%N) [4%N; 5%N; 6%N])
     = (Some (fun i => nth (N.to_nat i) [4%N; 5%N; 6%N] nullptr), Some 2%N)
  /\ result (exec shelf_host (AdditiveFEADeckBuilder.cards 1%N 0%N) [4%N; 5%N])
     = result (exec spare_host (AdditiveFEADeckBuilder.cards 1%N 9%N)
                    [4%N; 5%N; 6%N]).
Proof.
  assert (Hsame : forall i, (i < 2)%N ->
                            nth (N.to_nat i) [4%N; 5%N] nullptr
                            = nth (N.to_nat i) [4%N; 5%N; 6%N] nullptr).
  { intros i Hi.
    destruct i as [|[q|q|]]; try reflexivity; exfalso; lia. }
  split; [exact Hsame|]. split; [discriminate|].
  split; [reflexivity|]. split; [reflexivity|].
  exact (proj1 (array_getters_read_below_size_only
                  _ shelf_host [4%N; 5%N] _ spare_host [4%N; 5%N; 6%N]
                  1%N 0%N 9%N _ _ 2%N Hsame)
               eq_refl eq_refl).
Defined.

(** ** The string getters and setters *)

Lemma c_string_chars_no_NUL (bytes : string) :
  has_NUL (c_string_chars bytes) = false.
Proof.
  induction bytes as [|c bytes IH]; cbn.
  - reflexivity.
  - destruct (Ascii.eqb c NUL) eqn:Hc; cbn.
    + reflexivity.
    + now rewrite Hc.
Qed.

Lemma c_string_chars_stops (s rest : string) :
  has_NUL s = false -> c_string_chars (s ++ String NUL rest) = s.
Proof.
  induction s as [|c s IH]; cbn.
  - reflexivity.
  - destruct (Ascii.eqb c NUL); cbn; [discriminate|].
    intros H. now rewrite IH.
Qed.

Lemma c_string_chars_terminator (s : string) :
  c_string_chars (s ++ String NUL "") = c_string_chars s.
Proof.
  induction s as [|c s IH]; cbn.
  - reflexivity.
  - destruct (Ascii.eqb c NUL); [reflexivity | now rewrite IH].
Qed.

Lemma c_string_chars_fixed_iff (s : string) :
  c_string_chars s = s <-> has_NUL s = false.
Proof.
  split.
  - intros H. rewrite <- H. apply c_string_chars_no_NUL.
  - intros H. rewrite <- (c_string_chars_terminator s).
    now apply c_string_chars_terminated.
Qed.

(** X5.  The string that [name()] or [expression()] returns never has a NUL
    in it, whatever the host hands back. *)
Theorem string_getters_return_no_NUL
        World (h : Host World) (w : World) (this : raw_ptr) :
  has_NUL (result (exec h (SimAttribute.name this) w)) = false
  /\ has_NUL (result (exec h (ConfigurationParameterCell.expression this) w))
     = false.
Proof.
  split; cbn.
  - destruct (fst (h _ (SimAttribute_name_raw this) w)) as [bytes|]; cbn;
      [apply c_string_chars_no_NUL | reflexivity].
  - destruct (fst (h _ (ConfigurationParameterCell_expression_raw this) w))
      as [bytes|]; cbn; [apply c_string_chars_no_NUL | reflexivity].
Qed.

(** X6.  The string getters stop at the terminator: when the raw method
    hands back a pointer to the characters of [s] (none of them NUL), a
    NUL, and then anything at all, the getter returns [s]. *)
Theorem string_getters_stop_at_terminator
        World (h : Host World) (w : World) (this : raw_ptr) (s rest : string) :
  has_NUL s = false ->
  (fst (h _ (SimAttribute_name_raw this) w) = Some (s ++ String NUL rest)%string ->
   result (exec h (SimAttribute.name this) w) = s)
  /\ (fst (h _ (ConfigurationParameterCell_expression_raw this) w)
      = Some (s ++ String NUL rest)%string ->
      result (exec h (ConfigurationParameterCell.expression this) w) = s).
Proof.
  intros Hs. split; intros Hraw; cbn; rewrite Hraw; cbn;
    now apply c_string_chars_stops.
Qed.

(** A host that keeps the bytes "load", NUL, "junk", NUL as the name. *)
Lemma string_getters_stop_at_terminator_witness :
  has_NUL "load" = false
  /\ fst (keeping_host _ (SimAttribute_name_raw 1%N)
                       (mkKept (c_str ("load" ++ String NUL "junk")) [] nullptr))
     = Some ("load" ++ String NUL ("junk" ++ String NUL ""))%string
  /\ result (exec keeping_host (SimAttribute.name 1%N)
                  (mkKept (c_str ("load" ++ String NUL "junk")) [] nullptr))
     = "load"%string
  /\ result (exec keeping_host (ConfigurationParameterCell.expression 1%N)
                  (mkKept (c_str ("load" ++ String NUL "junk")) [] nullptr))
     = "load"%string.
Proof.
  split; [reflexivity|]. split; [reflexivity|].
  destruct (string_getters_stop_at_terminator
              _ keeping_host
              (mkKept (c_str ("load" ++ String NUL "junk")) [] nullptr)
              1%N "load" ("junk" ++ String NUL "") eq_refl)
    as [Hname Hexpression].
  split; [exact (Hname eq_refl) | exact (Hexpression eq_refl)].
Defined.

(** X7.  Setting a name and reading it back, against a host that hands
    back through [name_raw] the bytes it was handed through [name_raw]'s
    one-argument overload, gives the part of the name before its first
    NUL: the name itself exactly when it has no NUL inside.  The same
    holds for the expression of a configuration cell. *)
Theorem string_set_then_get
        World (h : Host World) (w : World) (this : raw_ptr) (value : string) :
  (fst (h _ (SimAttribute_name_raw this)
          (snd (h _ (SimAttribute_name_raw_set this (c_str value)) w)))
   = c_str value ->
   result (exec h (SimAttribute.name_set this value ;; SimAttribute.name this) w)
   = c_string_chars value
   /\ (result (exec h (SimAttribute.name_set this value ;; SimAttribute.name this) w)
       = value <-> has_NUL value = false))
  /\ (fst (h _ (ConfigurationParameterCell_expression_raw this)
             (snd (h _ (ConfigurationParameterCell_expression_raw_set
                          this (c_str value)) w)))
      = c_str value ->
      result (exec h (ConfigurationParameterCell.expression_set this value ;;
                      ConfigurationParameterCell.expression this) w)
      = c_string_chars value
      /\ (result (exec h (ConfigurationParameterCell.expression_set this value ;;
                          ConfigurationParameterCell.expression this) w)
          = value <-> has_NUL value = false)).
Proof.
  split; intros Hkept; cbn; rewrite Hkept; cbn;
    rewrite c_string_chars_terminator;
    (split; [reflexivity | apply c_string_chars_fixed_iff]).
Qed.

(** The keeping host: "bolt" comes back as it is, and of the six bytes
    b, o, NUL, l, t only "bo" comes back. *)
Lemma string_set_then_get_witness :
  fst (keeping_host _ (SimAttribute_name_raw 1%N)
         (snd (keeping_host _ (SimAttribute_name_raw_set 1%N (c_str "bolt"))
                            (mkKept None [] nullptr))))
  = c_str "bolt"
  /\ result (exec keeping_host
                  (SimAttribute.name_set 1%N "bolt" ;; SimAttribute.name 1%N)
                  (mkKept None [] nullptr))
     = "bolt"%string
  /\ result (exec keeping_host
                  (SimAttribute.name_set 1%N ("bo" ++ String NUL "lt") ;;
                   SimAttribute.name 1%N)
                  (mkKept None [] nullptr))
     = "bo"%string.
Proof.
  split; [reflexivity|].
  split.
  - exact (proj1 (proj1 (string_set_then_get
                           _ keeping_host (mkKept None [] nullptr) 1%N "bolt")
                        eq_refl)).
  - exact (proj1 (proj1 (string_set_then_get
                           _ keeping_host (mkKept None [] nullptr) 1%N
                           ("bo" ++ String NUL "lt"))
                        eq_refl)).
Defined.

(** ** Setters and getters in sequence *)

Lemma mkPtr_get (p : Ptr) : mkPtr (get p) = p.
Proof. now destruct p. Qed.

Lemma map_nth_all {T} (l : list T) (d : T) :
  List.map (fun i => nth i l d) (seq 0 (List.length l)) = l.
Proof.
  induction l as [|x l IH]; cbn.
  - reflexivity.
  - f_equal. rewrite <- seq_shift, map_map. exact IH.
Qed.

(** X8.  Setting the mask of a structural constraint and reading it back,
    against a host that hands back through [mask_raw] the pointer it was
    handed through the one-argument overload, gives a [Ptr] equal to the
    one that was set, the null [Ptr] included; likewise for the
    displacements and the rotations. *)
Theorem ptr_set_then_get
        World (h : Host World) (w : World) (this : raw_ptr) (value : Ptr) :
  (fst (h _ (StructuralConstraint_mask_raw this)
          (snd (h _ (StructuralConstraint_mask_raw_set this (get value)) w)))
   = get value ->
   result (exec h (StructuralConstraint.mask_set this value ;;
                   StructuralConstraint.mask this) w) = value)
  /\ (fst (h _ (StructuralConstraint_displacements_raw this)
             (snd (h _ (StructuralConstraint_displacements_raw_set
                          this (get value)) w)))
      = get value ->
      result (exec h (StructuralConstraint.displacements_set this value ;;
                      StructuralConstraint.displacements this) w) = value)
  /\ (fst (h _ (StructuralConstraint_rotations_raw this)
             (snd (h _ (StructuralConstraint_rotations_raw_set
                          this (get value)) w)))
      = get value ->
      result (exec h (StructuralConstraint.rotations_set this value ;;
                      StructuralConstraint.rotations this) w) = value).
Proof.
  repeat split; intros Hkept; cbn; rewrite Hkept; apply mkPtr_get.
Qed.

Lemma ptr_set_then_get_witness :
  fst (keeping_host _ (StructuralConstraint_mask_raw 1%N)
         (snd (keeping_host _ (StructuralConstraint_mask_raw_set 1%N nullptr)
                            (mkKept None [] 8%N))))
  = nullptr
  /\ result (exec keeping_host
                  (StructuralConstraint.mask_set 1%N (mkPtr nullptr) ;;
                   StructuralConstraint.mask 1%N)
                  (mkKept None [] 8%N))
     = mkPtr nullptr.
Proof.
  split; [reflexivity|].
  exact (proj1 (ptr_set_then_get _ keeping_host (mkKept None [] 8%N) 1%N
                                 (mkPtr nullptr))
               eq_refl).
Defined.

(** X9.  Setting the input entities of an attribute and reading them back,
    against a host that hands back an array with the entries and the size
    it was handed, gives the vector that was set: the same length, the
    same order, null entries included. *)
Theorem inputEntities_set_then_get
        World (h : Host World) (w : World) (this : raw_ptr) (s0 : size_t)
        (value : list Ptr) (p : size_t -> raw_ptr) :
  fst (h _ (SimAttribute_inputEntities_raw this)
         (snd (h _ (SimAttribute_inputEntities_raw_set
                      this (Some (List.map get value))
                      (N.of_nat (List.length value))) w)))
  = (Some p, Some (N.of_nat (List.length value))) ->
  (forall i, i < List.length value ->
             p (N.of_nat i) = nth i (List.map get value) nullptr) ->
  result (exec h (SimAttribute.inputEntities_set this value ;;
                  SimAttribute.inputEntities this s0) w)
  = value.
Proof.
  intros Hkept Hentries.
  rewrite exec_bind. cbn [result].
  rewrite (exec_forwards (fw_inputEntities_set this value)).
  rewrite (exec_forwards (fw_inputEntities this s0)).
  unfold one_call, marshal_ptrs. cbn [result world convert].
  rewrite Hkept. cbn [fst snd stored]. unfold assign.
  rewrite Nat2N.id.
  rewrite <- (map_nth_all value (mkPtr nullptr)) at 2.
  apply map_ext_in. intros i Hi. apply in_seq in Hi.
  rewrite Hentries by lia.
  rewrite <- (mkPtr_get (nth i value (mkPtr nullptr))). f_equal.
  now rewrite (map_nth get value (mkPtr nullptr)).
Qed.

Lemma inputEntities_set_then_get_witness :
  fst (keeping_host _ (SimAttribute_inputEntities_raw 1%N)
         (snd (keeping_host _ (SimAttribute_inputEntities_raw_set
                                 1%N (Some [3%N; nullptr; 5%N]) 3%N)
                            (mkKept None [] nullptr))))
  = (Some (fun i => nth (N.to_nat i) [3%N; nullptr; 5%N] nullptr), Some 3%N)
  /\ (forall i, i < 3 ->
                nth (N.to_nat (N.of_nat i)) [3%N; nullptr; 5%N] nullptr
                = nth i [3%N; nullptr; 5%N] nullptr)
  /\ result (exec keeping_host
                  (SimAttribute.inputEntities_set
                     1%N [mkPtr 3%N; mkPtr nullptr; mkPtr 5%N] ;;
                   SimAttribute.inputEntities 1%N 77%N)
                  (mkKept None [] nullptr))
     = [mkPtr 3%N; mkPtr nullptr; mkPtr 5%N].
Proof.
  assert (Hentries : forall i, i < 3 ->
                       nth (N.to_nat (N.of_nat i)) [3%N; nullptr; 5%N] nullptr
                       = nth i [3%N; nullptr; 5%N] nullptr)
    by (intros i _; now rewrite Nat2N.id).
  split; [reflexivity|]. split; [exact Hentries|].
  exact (inputEntities_set_then_get
           _ keeping_host (mkKept None [] nullptr) 1%N 77%N
           [mkPtr 3%N; mkPtr nullptr; mkPtr 5%N]
           (fun i => nth (N.to_nat i) [3%N; nullptr; 5%N] nullptr)
           eq_refl Hentries).
Defined.

(** ** The marshalling loop and the deck *)

(** X10.  The array that a vector-taking setter hands to the host has
    exactly [value.size()] entries, and the loop has written every one of
    them: nothing of what [new[]] left in the array remains. *)
Theorem marshalling_loop_overwrites_every_entry
        S T (conv : S -> T) (value : list S) (junk junk' : T) :
  fill_array conv value (new_array (List.length value) junk)
  = fill_array conv value (new_array (List.length value) junk')
  /\ List.length (array_entries
                    (fill_array conv value (new_array (List.length value) junk)))
     = List.length value
  /\ forall i x, nth_error value i = Some x ->
       nth_error (array_entries
                    (fill_array conv value (new_array (List.length value) junk))) i
       = Some (conv x).
Proof.
  rewrite !fill_array_new. cbn [array_entries].
  split; [reflexivity|]. split; [apply length_map|].
  intros i x Hx. now rewrite nth_error_map, Hx.
Qed.

Lemma marshalling_loop_overwrites_every_entry_witness :
  nth_error [mkPtr 3%N; mkPtr 5%N] 1 = Some (mkPtr 5%N)
  /\ nth_error (array_entries
                  (fill_array get [mkPtr 3%N; mkPtr 5%N] (new_array 2 99%N))) 1
     = Some 5%N.
Proof.
  split; [reflexivity|].
  exact (proj2 (proj2 (marshalling_loop_overwrites_every_entry
                         _ _ get [mkPtr 3%N; mkPtr 5%N] 99%N nullptr))
               1 (mkPtr 5%N) eq_refl).
Defined.

(** X11.  Creating a card and appending it makes two raw calls: the raw
    factory, then [append_raw] with exactly the pointer the factory handed
    back, in the state the factory left.  Nothing is checked in between:
    when the factory fails, the null pointer is what is appended. *)
Theorem created_card_is_appended_unchecked
        (create_card : Prog Ptr) (c : RawCall raw_ptr) :
  CardFactory create_card c ->
  forall World (h : Host World) (w : World) (this : raw_ptr),
    trace (exec h (card <- create_card ;;
                   AdditiveFEADeckBuilder.append this card) w)
    = [(anycall c, w);
       (anycall (AdditiveFEADeckBuilder_append_raw this (fst (h _ c w))),
        snd (h _ c w))]
    /\ world (exec h (card <- create_card ;;
                      AdditiveFEADeckBuilder.append this card) w)
       = snd (h _ (AdditiveFEADeckBuilder_append_raw this (fst (h _ c w)))
                (snd (h _ c w))).
Proof.
  intros Hfactory World h w this.
  assert (Hforwards : Forwards create_card c WrapPtr)
    by (destruct Hfactory; constructor).
  rewrite exec_bind, (exec_forwards Hforwards). now cbn.
Qed.

(** On the deck host a generic card is created at address 50 and appended;
    on the shelf host the creation fails and null is appended. *)
Lemma created_card_is_appended_unchecked_witness :
  CardFactory (AdditiveFEADeckBuilder.createGenericCard 1%N "*TITLE" "plate")
              (AdditiveFEADeckBuilder_createGenericCard_raw
                 1%N (c_str "*TITLE") (c_str "plate"))
  /\ world (exec deck_host
                 (card <- AdditiveFEADeckBuilder.createGenericCard
                            1%N "*TITLE" "plate" ;;
                  AdditiveFEADeckBuilder.append 1%N card) [])
     = [50%N]
  /\ List.map fst
       (trace (exec shelf_host
                    (card <- AdditiveFEADeckBuilder.createGenericCard
                               1%N "*TITLE" "plate" ;;
                     AdditiveFEADeckBuilder.append 1%N card) []))
     = [anycall (AdditiveFEADeckBuilder_createGenericCard_raw
                   1%N (c_str "*TITLE") (c_str "plate"));
        anycall (AdditiveFEADeckBuilder_append_raw 1%N nullptr)].
Proof.
  split; [apply cf_createGenericCard|].
  split.
  - exact (proj2 (created_card_is_appended_unchecked
                    _ _ (cf_createGenericCard 1%N "*TITLE" "plate")
                    _ deck_host [] 1%N)).
  - rewrite (proj1 (created_card_is_appended_unchecked
                      _ _ (cf_createGenericCard 1%N "*TITLE" "plate")
                      _ shelf_host [] 1%N)).
    reflexivity.
Defined.
